(** * Document-to-risk-assessment pipeline of [backend/main.py]

    A shallow embedding of the weighted-lexicon scorer, the summarizer, the
    text extractor and the [/analyze] endpoint, together with the Python
    built-ins they call ([str.lower], [in], [str.strip], [re.split],
    [bytes.decode], [min], [int / float]).

    Conventions.
    - A Python [str] is a list of Unicode code points ([N]); [bytes] is a
      list of [Byte.byte].
    - A Python [float] is an IEEE 754 binary64 value, taken from the
      Standard Library's executable specification [SpecFloat] with
      [prec = 53] and [emax = 1024].
    - A Python [int] is a [Z].
    - A call that can raise returns an [outcome]; [try]/[except Exception]
      is [try_except].
    - Two things the code takes from its environment are parameters:
      [unicode_lower], the full Unicode lowercasing [str.lower] applies to a
      string that is not pure ASCII, and [PyPDF2], the optional PDF library
      (a call into it returns or raises an [Exception]).
    - The module-level dictionaries [FILES] and [ANALYSES] form the [Store]
      that [analyze] reads and writes; [RISK_WEIGHTS] is the association
      list of the table in definition order, and [risk_analysis] is the
      body of [enhanced_risk_analysis] with that table as an argument.

    Layout: the built-ins, the backend, the vocabulary of the properties,
    then the lemmas (substring test, scan of the lexicon, binary64, scorer,
    summarizer, decoding and extraction) and the properties of the
    pipeline, numbered C1 to C10 as in the specification's claims. *)

From Stdlib Require Import ZArith NArith List Bool Ascii String Strings.Byte Lia.
From Stdlib Require Import Floats.SpecFloat Floats.PrimFloat Floats.FloatOps.
From Stdlib Require Import DecimalString DecimalNat.
Import ListNotations.

Local Open Scope list_scope.
Local Open Scope N_scope.

(* ================================================================== *)
(** * Python values and built-ins *)
(* ================================================================== *)

Definition codepoint := N.
Definition str := list codepoint.
Definition bytes := list byte.

(** A string literal of the source whose characters are all below U+0100. *)
Definition lit (s : string) : str := map N_of_ascii (list_ascii_of_string s).

(** ** Exceptions

    Every exception the modelled code can meet derives from Python's
    [Exception], so [except Exception] catches each constructor. *)
Inductive exn :=
| OverflowError
| ZeroDivisionError
| HTTPException (status_code : Z) (detail : string)
| Exception (what : string).

Inductive outcome (A : Type) :=
| Returns (a : A)
| Raises (e : exn).
Arguments Returns {A} a.
Arguments Raises {A} e.

Definition bind {A B} (m : outcome A) (k : A -> outcome B) : outcome B :=
  match m with
  | Returns a => k a
  | Raises e => Raises e
  end.

Definition try_except {A} (body : outcome A) (handler : exn -> outcome A) : outcome A :=
  match body with
  | Returns a => Returns a
  | Raises e => handler e
  end.

Notation "x <- m ;; k" := (bind m (fun x => k))
  (at level 61, m at next level, right associativity).

(** ** [str] methods *)

(** [str.isspace] on one code point, which is also what [\s] matches in a
    [str] pattern of [re]. *)
Definition isspace (c : codepoint) : bool :=
  ((0x09 <=? c) && (c <=? 0x0D)) || ((0x1C <=? c) && (c <=? 0x20))
  || (c =? 0x85) || (c =? 0xA0) || (c =? 0x1680)
  || ((0x2000 <=? c) && (c <=? 0x200A))
  || (c =? 0x2028) || (c =? 0x2029) || (c =? 0x202F)
  || (c =? 0x205F) || (c =? 0x3000).

Definition ascii_lower (c : codepoint) : codepoint :=
  if (0x41 <=? c) && (c <=? 0x5A) then c + 0x20 else c.

Definition is_ascii (s : str) : bool := forallb (fun c => c <? 0x80) s.

(** [needle in hay] *)
Fixpoint startswith (s prefix : str) {struct prefix} : bool :=
  match prefix, s with
  | [], _ => true
  | _ :: _, [] => false
  | p :: prefix', c :: s' => (p =? c) && startswith s' prefix'
  end.

Fixpoint contains (needle hay : str) : bool :=
  startswith hay needle
  || match hay with
     | [] => false
     | _ :: hay' => contains needle hay'
     end.

Fixpoint lstrip (s : str) : str :=
  match s with
  | [] => []
  | c :: s' => if isspace c then lstrip s' else s
  end.

(** [s.strip()] *)
Definition strip (s : str) : str := rev (lstrip (rev (lstrip s))).

(** [sep.join(parts)] *)
Fixpoint join (sep : str) (parts : list str) : str :=
  match parts with
  | [] => []
  | [p] => p
  | p :: rest => p ++ sep ++ join sep rest
  end.

(** Truth value of a [str] or a [list]: non-empty. *)
Definition truthy {A} (l : list A) : bool :=
  match l with
  | [] => false
  | _ :: _ => true
  end.

(** ** [re.split(r"(?<=[.!?])\s+", text)]

    A match starts at a white-space character whose predecessor is one of
    [.], [!], [?] and extends over the whole white-space run ([\s+] is
    greedy). The scan keeps the piece being read (reversed), whether the
    previous character was one of the three marks, and whether it is inside
    a separator. *)
Definition is_end_mark (c : codepoint) : bool :=
  (c =? 0x2E) || (c =? 0x21) || (c =? 0x3F).

Fixpoint split_scan (in_sep after_mark : bool) (piece : str) (s : str) : list str :=
  match s with
  | [] => [rev piece]
  | c :: s' =>
      if isspace c then
        if in_sep then split_scan true false piece s'
        else if after_mark then rev piece :: split_scan true false [] s'
        else split_scan false false (c :: piece) s'
      else split_scan false (is_end_mark c) (c :: piece) s'
  end.

Definition re_split_sentences (text : str) : list str :=
  split_scan false false [] text.

(** ** [bytes.decode("utf-8", errors="ignore")]

    CPython's decoder: a well-formed sequence yields its code point; an
    ill-formed one is reported to the error handler as the range of its
    maximal valid prefix (one byte for a bad start byte), and a sequence cut
    by the end of the input as the range up to the end. The [ignore]
    handler drops the reported range and decoding resumes after it. *)
Definition is_continuation (b : N) : bool := (0x80 <=? b) && (b <? 0xC0).

Fixpoint utf8_decode_ignore (s : bytes) : str :=
  match s with
  | [] => []
  | b1 :: t1 =>
    let ch := Byte.to_N b1 in
    if ch <? 0x80 then ch :: utf8_decode_ignore t1
    else if ch <? 0xC2 then utf8_decode_ignore t1
    else if ch <? 0xE0 then
      match t1 with
      | [] => []
      | b2 :: t2 =>
        let ch2 := Byte.to_N b2 in
        if is_continuation ch2
        then (N.shiftl (N.land ch 0x1F) 6 + N.land ch2 0x3F) :: utf8_decode_ignore t2
        else utf8_decode_ignore t1
      end
    else if ch <? 0xF0 then
      match t1 with
      | [] => []
      | b2 :: t2 =>
        let ch2 := Byte.to_N b2 in
        if negb (is_continuation ch2)
           || (if ch2 <? 0xA0 then ch =? 0xE0 else ch =? 0xED)
        then utf8_decode_ignore t1
        else
          match t2 with
          | [] => []
          | b3 :: t3 =>
            let ch3 := Byte.to_N b3 in
            if is_continuation ch3
            then (N.shiftl (N.land ch 0x0F) 12 + N.shiftl (N.land ch2 0x3F) 6
                  + N.land ch3 0x3F) :: utf8_decode_ignore t3
            else utf8_decode_ignore t2
          end
      end
    else if ch <? 0xF5 then
      match t1 with
      | [] => []
      | b2 :: t2 =>
        let ch2 := Byte.to_N b2 in
        if negb (is_continuation ch2)
           || (if ch2 <? 0x90 then ch =? 0xF0 else ch =? 0xF4)
        then utf8_decode_ignore t1
        else
          match t2 with
          | [] => []
          | b3 :: t3 =>
            let ch3 := Byte.to_N b3 in
            if negb (is_continuation ch3) then utf8_decode_ignore t2
            else
              match t3 with
              | [] => []
              | b4 :: t4 =>
                let ch4 := Byte.to_N b4 in
                if is_continuation ch4
                then (N.shiftl (N.land ch 0x07) 18 + N.shiftl (N.land ch2 0x3F) 12
                      + N.shiftl (N.land ch3 0x3F) 6 + N.land ch4 0x3F)
                     :: utf8_decode_ignore t4
                else utf8_decode_ignore t3
              end
          end
      end
    else utf8_decode_ignore t1
  end.

Definition bytes_eqb (a b : bytes) : bool :=
  if list_eq_dec Byte.byte_eq_dec a b then true else false.

(** ** [float], [int / float] and [min] *)

Definition float64 := spec_float.

Definition f64_0 : float64 := Eval vm_compute in Prim2SF 0%float.
Definition f64_1 : float64 := Eval vm_compute in Prim2SF 1%float.
Definition f64_100 : float64 := Eval vm_compute in Prim2SF 100%float.
#[warnings="-inexact-float"]
Definition f64_0_2 : float64 := Eval vm_compute in Prim2SF 0.2%float.
#[warnings="-inexact-float"]
Definition f64_0_30 : float64 := Eval vm_compute in Prim2SF 0.30%float.

(** [float(n)] for an [int]: round to nearest, ties to even; an [int] whose
    rounding leaves the finite range raises [OverflowError]. *)
Definition float_of_int (n : Z) : outcome float64 :=
  match binary_normalize prec emax n 0 false with
  | S754_infinity _ => Raises OverflowError
  | x => Returns x
  end.

(** [n / d] with [n : int] and [d : float]. *)
Definition int_truediv_float (n : Z) (d : float64) : outcome float64 :=
  x <- float_of_int n ;;
  if SFeqb d f64_0 then Raises ZeroDivisionError
  else Returns (SFdiv prec emax x d).

(** [min(a, b)] keeps [a] unless [b < a]. *)
Definition min2 (a b : float64) : float64 :=
  if SFltb b a then b else a.

Definition f64_le (a b : float64) : bool := SFleb a b.
Definition f64_lt (a b : float64) : bool := SFltb a b.
Definition f64_eq (a b : float64) : bool := SFeqb a b.

(** ** [dict] as an insertion-ordered association list *)

Definition dict (V : Type) := list (string * V).

Fixpoint dict_get {V} (d : dict V) (k : string) : option V :=
  match d with
  | [] => None
  | (k', v) :: d' => if String.eqb k' k then Some v else dict_get d' k
  end.

(** [d[k] = v]: an existing key keeps its place, a new one goes last. *)
Fixpoint dict_set {V} (d : dict V) (k : string) (v : V) : dict V :=
  match d with
  | [] => [(k, v)]
  | (k', v') :: d' =>
      if String.eqb k' k then (k', v) :: d' else (k', v') :: dict_set d' k v
  end.

(* ================================================================== *)
(** * The backend *)
(* ================================================================== *)

(** The module-level table, in definition order (the order in which
    [RISK_WEIGHTS.items()] yields it). *)
Definition lexicon := list (str * Z).

Definition RISK_WEIGHTS : lexicon :=
  [ (lit "fraud", 20%Z);
    (lit "bribery", 15%Z);
    (lit "sanctions", 25%Z);
    (lit "bankruptcy", 10%Z);
    (lit "money laundering", 30%Z);
    (lit "litigation", 10%Z);
    (lit "regulatory fines", 20%Z);
    (lit "tax evasion", 15%Z);
    (lit "data breach", 20%Z);
    (lit "antitrust", 15%Z) ].

Definition REVIEW_MESSAGE : str :=
  lit "Review the highlighted sentences for potential compliance issues.".

(** The hyphen of the source's [high-severity] is U+2011. *)
Definition CONTINUE_MESSAGE : str :=
  lit "No high" ++ [0x2011]
  ++ lit "severity risk terms detected; continue standard due diligence.".

Record Details := {
  flagged_terms : list str;
  recommendations : str
}.

(** The dictionary [enhanced_risk_analysis] returns. *)
Record Analysis := {
  summary : str;
  risk_score : float64;
  details : Details
}.

Record AnalysisRequest := { req_file_id : string }.

Record AnalysisResult := {
  file_id : string;
  res_summary : str;
  res_risk_score : float64;
  res_details : Details
}.

(** The two module-level stores. *)
Record Store := {
  FILES : dict bytes;
  ANALYSES : dict AnalysisResult
}.

(** What [PyPDF2] offers the extractor. [page.extract_text()] may raise or
    return [None]; iterating [reader.pages] yields pages until it stops or
    raises. *)
Definition page := outcome (option str).

Inductive pages :=
| PagesEnd
| PagesNext (p : page) (rest : pages)
| PagesRaise (e : exn).

Record pdf_module := { PdfReader : bytes -> outcome pages }.

Definition PDF_MAGIC : bytes := [x25; x50; x44; x46].

(** One turn of [for term, weight in RISK_WEIGHTS.items()]. *)
Definition scan_step (lower : str) (acc : list str * Z) (item : str * Z)
  : list str * Z :=
  let '(flagged, score) := acc in
  let '(term, weight) := item in
  if contains term lower
  then (flagged ++ [term], (score + weight)%Z)
  else acc.

Definition scan_lexicon (weights : lexicon) (lower : str) : list str * Z :=
  fold_left (scan_step lower) weights ([], 0%Z).

(** [[s.strip() for s in re.split(...) if s.strip()]] *)
Definition split_sentences (text : str) : list str :=
  filter truthy (map strip (re_split_sentences text)).

Section Backend.

(** [str.lower] on a string that is not pure ASCII (full Unicode case
    mapping); on pure ASCII CPython maps [A]-[Z] to [a]-[z]. *)
Variable unicode_lower : str -> str.

Definition lower (s : str) : str :=
  if is_ascii s then map ascii_lower s else unicode_lower s.

(** The sentences kept for the summary. *)
Definition select_sentences (flagged sentences : list str) : list str :=
  let summary_sentences :=
    filter (fun s => existsb (fun term => contains term (lower s)) flagged)
           sentences in
  match summary_sentences, sentences with
  | [], first :: _ => summary_sentences ++ [first]
  | _, _ => summary_sentences
  end.

Definition summarize (text : str) (flagged : list str) : str :=
  let summary_sentences := select_sentences flagged (split_sentences text) in
  join (lit ". ") summary_sentences
  ++ (if truthy summary_sentences then lit "." else lit "").

Definition recommend (flagged : list str) : str :=
  if truthy flagged then REVIEW_MESSAGE else CONTINUE_MESSAGE.

(** The body of [enhanced_risk_analysis], with the global table it reads
    made explicit. *)
Definition risk_analysis (weights : lexicon) (text : str) : outcome Analysis :=
  let lower := lower text in
  let '(flagged, score) := scan_lexicon weights lower in
  q <- int_truediv_float score f64_100 ;;
  let risk_score := min2 q f64_1 in
  let summary := summarize text flagged in
  Returns {| summary := summary;
             risk_score := risk_score;
             details := {| flagged_terms := flagged;
                           recommendations := recommend flagged |} |}.

Definition enhanced_risk_analysis (text : str) : outcome Analysis :=
  risk_analysis RISK_WEIGHTS text.

(** The imported module, or [None] when the import failed. *)
Variable PyPDF2 : option pdf_module.

Fixpoint read_pages (ps : pages) (text : list str) : outcome (list str) :=
  match ps with
  | PagesEnd => Returns text
  | PagesRaise e => Raises e
  | PagesNext p rest =>
      page_text <- try_except
                     (t <- p ;;
                      Returns match t with
                              | Some s => if truthy s then s else lit ""
                              | None => lit ""
                              end)
                     (fun _ => Returns (lit "")) ;;
      read_pages rest (text ++ [page_text])
  end.

Definition extract_text_from_pdf (data : bytes) : outcome str :=
  match PyPDF2 with
  | None => Returns (lit "")
  | Some m =>
      try_except
        (reader <- PdfReader m data ;;
         text <- read_pages reader [] ;;
         Returns (join (lit (String "010" EmptyString)) text))
        (fun _ => Returns (lit ""))
  end.

(** Lines 252-259 of [analyze]: the extraction chosen by the header. *)
Definition primary_text (data : bytes) : outcome str :=
  if bytes_eqb (firstn 4 data) PDF_MAGIC
  then extract_text_from_pdf data
  else try_except (Returns (utf8_decode_ignore data))
                  (fun _ => Returns (lit "")).

(** Lines 261-263: the preview used when the extraction is empty. *)
Definition with_fallback (data : bytes) (text : str) : str :=
  if truthy text then text else utf8_decode_ignore (firstn 500 data).

Definition pipeline_text (data : bytes) : outcome str :=
  text <- primary_text data ;;
  Returns (with_fallback data text).

Definition analyze (req : AnalysisRequest) (st : Store)
  : outcome AnalysisResult * Store :=
  let file_id := req_file_id req in
  match dict_get (FILES st) file_id with
  | None => (Raises (HTTPException 404 "File not found"), st)
  | Some data =>
      match (text <- pipeline_text data ;; enhanced_risk_analysis text) with
      | Raises e => (Raises e, st)
      | Returns analysis =>
          let result := {| file_id := file_id;
                           res_summary := summary analysis;
                           res_risk_score := risk_score analysis;
                           res_details := details analysis |} in
          (Returns result,
           {| FILES := FILES st;
              ANALYSES := dict_set (ANALYSES st) file_id result |})
      end
  end.

End Backend.

(* ================================================================== *)
(** * The other endpoints *)
(* ================================================================== *)

(** What [upload_file] reads of the uploaded file: its declared name and
    the bytes [await file.read()] returns. *)
Record UploadFile := {
  filename : option string;
  contents : bytes
}.

Record UploadResponse := {
  up_file_id : string;
  up_filename : option string
}.

(** [str(n)] for a non-negative [int]. *)
Definition str_of_nat (n : nat) : string :=
  NilEmpty.string_of_uint (Nat.to_uint n).

(** [f"file_{n}"] *)
Definition file_name (n : nat) : string := ("file_" ++ str_of_nat n)%string.

(** [len(d)] *)
Definition dict_len {V} (d : dict V) : nat := List.length d.

Definition upload_file (file : UploadFile) (st : Store)
  : outcome UploadResponse * Store :=
  let contents := contents file in
  if negb (truthy contents)
  then (Raises (HTTPException 400 "Empty file"), st)
  else
    let file_id := file_name (dict_len (FILES st) + 1)%nat in
    (Returns {| up_file_id := file_id; up_filename := filename file |},
     {| FILES := dict_set (FILES st) file_id contents;
        ANALYSES := ANALYSES st |}).

Definition get_analysis (file_id : string) (st : Store)
  : outcome AnalysisResult * Store :=
  match dict_get (ANALYSES st) file_id with
  | None => (Raises (HTTPException 404 "Analysis not found"), st)
  | Some result => (Returns result, st)
  end.

(** The process starts with both dictionaries empty. *)
Definition initial_store : Store := {| FILES := []; ANALYSES := [] |}.

(** One request to the application. *)
Inductive request :=
| Upload (file : UploadFile)
| Analyze (req : AnalysisRequest)
| GetAnalysis (file_id : string).

(* ================================================================== *)
(** * The frequency-based analysis *)
(* ================================================================== *)

Definition risk_keywords : list str :=
  map lit
    [ "risk"; "fraud"; "penalty"; "sanction"; "compliance"; "violation";
      "fine"; "investigation"; "legal"; "lawsuit"; "breach"; "corruption";
      "bribery"; "scandal"; "regulatory"; "audit"; "failure"; "misconduct";
      "whistleblower"; "dispute"; "conflict"; "violate"; "punish" ]%string.

Definition SIMPLE_REVIEW_MESSAGE : str :=
  lit "Review the flagged sections for potential legal or compliance issues. "
  ++ lit "Consider engaging a compliance specialist to evaluate identified risks.".

Definition SIMPLE_CONTINUE_MESSAGE : str :=
  lit "No obvious risk keywords detected. Continue with standard due diligence checks.".

Record SimpleDetails := {
  flagged_sections : str;
  simple_recommendations : str
}.

(** The dictionary [simple_text_analysis] returns. *)
Record SimpleAnalysis := {
  simple_summary : str;
  simple_risk_score : float64;
  simple_details : SimpleDetails
}.

Definition f64_10 : float64 := Eval vm_compute in Prim2SF 10%float.

(** [a / b] with both [int]: the quotient correctly rounded to binary64
    (ties to even); [ZeroDivisionError] for [b = 0] and [OverflowError] when
    the rounded quotient is not finite. *)
Definition int_truediv (a b : Z) : outcome float64 :=
  match a, b with
  | _, Z0 => Raises ZeroDivisionError
  | Z0, _ => Returns (S754_zero (b <? 0)%Z)
  | _, _ =>
      match SFdiv prec emax
              (S754_finite (a <? 0)%Z (Z.to_pos (Z.abs a)) 0)
              (S754_finite (b <? 0)%Z (Z.to_pos (Z.abs b)) 0) with
      | S754_infinity _ => Raises OverflowError
      | x => Returns x
      end
  end.

(** [x * y] on [float]. *)
Definition float_mul (x y : float64) : float64 := SFmul prec emax x y.

(** [s[a:b]] for [0 <= a] and [0 <= b]. *)
Definition slice (s : str) (a b : nat) : str := firstn (b - a)%nat (skipn a s).

Definition ascii_isword (c : codepoint) : bool :=
  ((0x30 <=? c) && (c <=? 0x39)) || ((0x41 <=? c) && (c <=? 0x5A))
  || (c =? 0x5F) || ((0x61 <=? c) && (c <=? 0x7A)).

Section FrequencyAnalysis.

Variable unicode_lower : str -> str.

(** [str.isalnum] on one code point above U+007F. *)
Variable unicode_isalnum : codepoint -> bool.

(** What [\w] matches in a [str] pattern: alphanumerics and the underscore. *)
Definition is_word (c : codepoint) : bool :=
  if c <? 0x80 then ascii_isword c else unicode_isalnum c.

(** [\b] between a character, word-like or not ([false] at the start of the
    string), and the rest of the string. *)
Definition word_boundary (before_is_word : bool) (s : str) : bool :=
  xorb before_is_word
       match s with
       | [] => false
       | c :: _ => is_word c
       end.

(** [re.findall(r"\b\w+\b", s)]: the maximal runs of word characters.
    [current] is the run being read, reversed. *)
Fixpoint findall_words (current : option str) (s : str) : list str :=
  match s with
  | [] => match current with
          | Some w => [rev w]
          | None => []
          end
  | c :: s' =>
      if is_word c
      then findall_words (Some (c :: match current with
                                     | Some w => w
                                     | None => []
                                     end)) s'
      else match current with
           | Some w => rev w :: findall_words None s'
           | None => findall_words None s'
           end
  end.

(** Whether [\bkw\b] matches at the head of [s], the character before [s]
    being word-like or not. *)
Definition keyword_here (kw : str) (before_is_word : bool) (s : str) : bool :=
  word_boundary before_is_word s
  && startswith s kw
  && word_boundary (match rev kw with
                    | [] => before_is_word
                    | c :: _ => is_word c
                    end)
                   (skipn (List.length kw) s).

(** The spans of [re.finditer(rf"\b{kw}\b", s)] for a non-empty [kw]: a scan
    from left to right that resumes after each match. [pos] is the index of
    the head of [s] and [skip] the number of characters of the last match
    still to pass. *)
Fixpoint finditer_keyword (kw : str) (before_is_word : bool) (pos skip : nat)
  (s : str) : list (nat * nat) :=
  match s with
  | [] => []
  | c :: s' =>
      match skip with
      | S k => finditer_keyword kw (is_word c) (S pos) k s'
      | O =>
          if keyword_here kw before_is_word s
          then (pos, (pos + List.length kw)%nat)
               :: finditer_keyword kw (is_word c) (S pos) (List.length kw - 1)%nat s'
          else finditer_keyword kw (is_word c) (S pos) 0%nat s'
      end
  end.

Definition keyword_occurrences (lower_text : str) : list (nat * nat) :=
  flat_map (fun kw => finditer_keyword kw false 0%nat 0%nat lower_text) risk_keywords.

(** One turn of [for start, end in occurrences[:10]]. *)
Definition snippet (text : str) (span : nat * nat) : str :=
  let '(start, end_) := span in
  let snippet_start := Nat.max 0 (start - 50)%nat in
  let snippet_end := Nat.min (List.length text) (end_ + 50)%nat in
  strip (slice text snippet_start snippet_end).

Definition simple_text_analysis (text : str) : outcome SimpleAnalysis :=
  let lower_text := lower unicode_lower text in
  let words := findall_words None lower_text in
  let total_words := if truthy words then List.length words else 1%nat in
  let occurrences := keyword_occurrences lower_text in
  let risk_count := List.length occurrences in
  ratio <- int_truediv (Z.of_nat risk_count) (Z.of_nat total_words) ;;
  let risk_score := min2 (float_mul ratio f64_10) f64_1 in
  let flagged_sections := map (snippet text) (firstn 10 occurrences) in
  let sentences := re_split_sentences (strip text) in
  let summary_sentences := firstn 3 sentences in
  let summary :=
    if truthy summary_sentences
    then join (lit " ") summary_sentences
    else firstn 200 text in
  Returns
    {| simple_summary := summary;
       simple_risk_score := risk_score;
       simple_details :=
         {| flagged_sections :=
              if truthy flagged_sections
              then join (lit (String "010" (String "010" EmptyString))) flagged_sections
              else lit "None";
            simple_recommendations :=
              if truthy flagged_sections
              then SIMPLE_REVIEW_MESSAGE
              else SIMPLE_CONTINUE_MESSAGE |} |}.

End FrequencyAnalysis.

Section Application.

Variable unicode_lower : str -> str.
Variable PyPDF2 : option pdf_module.

(** The store a request leaves. *)
Definition handle (r : request) (st : Store) : Store :=
  match r with
  | Upload file => snd (upload_file file st)
  | Analyze req => snd (analyze unicode_lower PyPDF2 req st)
  | GetAnalysis file_id => snd (get_analysis file_id st)
  end.

(** The stores the process can be in: the initial one and those left by a
    request made in a reachable store. *)
Inductive reachable : Store -> Prop :=
| reachable_initial : reachable initial_store
| reachable_handle : forall r st, reachable st -> reachable (handle r st).

End Application.

(* ================================================================== *)
(** * Vocabulary of the properties *)
(* ================================================================== *)

(** [needle] is a contiguous substring of [hay]. *)
Definition occurs_in (needle hay : str) : Prop :=
  exists before after, hay = before ++ needle ++ after.

(** A term is present in a text when it occurs in the lowercased text. *)
Definition present (unicode_lower : str -> str) (term text : str) : Prop :=
  occurs_in term (lower unicode_lower text).

(** The lexicon entries whose term occurs in the lowercased text, in lexicon
    order. *)
Definition matched (weights : lexicon) (lowered : str) : lexicon :=
  filter (fun item => contains (fst item) lowered) weights.

Definition total_weight (items : lexicon) : Z :=
  fold_right (fun item acc => (snd item + acc)%Z) 0%Z items.

Definition terms (weights : lexicon) : list str := map fst weights.

(** [l] is obtained from [m] by deleting elements. *)
Inductive Subsequence {A : Type} : list A -> list A -> Prop :=
| Subsequence_nil : Subsequence [] []
| Subsequence_skip : forall x l m, Subsequence l m -> Subsequence l (x :: m)
| Subsequence_keep : forall x l m, Subsequence l m -> Subsequence (x :: l) (x :: m).

(** [0.0 <= x <= 1.0] in the order of binary64 (false on NaN). *)
Definition in_unit_interval (x : float64) : Prop :=
  f64_le f64_0 x = true /\ f64_le x f64_1 = true.

Definition ends_with_end_mark (s : str) : bool :=
  match rev s with
  | [] => false
  | c :: _ => is_end_mark c
  end.

(** Iterating [reader.pages] raises [e] after some pages were read. *)
Fixpoint pages_raise (ps : pages) (e : exn) : Prop :=
  match ps with
  | PagesEnd => False
  | PagesRaise e' => e' = e
  | PagesNext _ rest => pages_raise rest e
  end.

(** Zero, a finite number or infinity, each with the sign bit clear. *)
Definition sign_clear (x : float64) : bool :=
  match x with
  | S754_zero false | S754_finite false _ _ | S754_infinity false => true
  | _ => false
  end.

(** What [min(score / 100.0, 1.0)] must satisfy at an [int] score for the
    score and the flagged list to agree: it returns, it is positive exactly
    when the score is, and it equals [0.0] exactly when the score is [0]. *)
Definition score_agrees (n : Z) : bool :=
  match int_truediv_float n f64_100 with
  | Returns q =>
      Bool.eqb (f64_lt f64_0 (min2 q f64_1)) (0 <? n)%Z
      && Bool.eqb (f64_eq (min2 q f64_1) f64_0) (n =? 0)%Z
  | Raises _ => false
  end.

(** The scores from [0] up to the sum of every weight of [RISK_WEIGHTS]. *)
Definition reachable_scores : list Z :=
  map Z.of_nat (seq 0 (S (Z.to_nat (total_weight RISK_WEIGHTS)))).

(** The keys of a dictionary, in insertion order. *)
Definition keys {V} (d : dict V) : list string := map fst d.

(** The stored files are named [file_1], ..., [file_n], in upload order. *)
Definition well_numbered (st : Store) : Prop :=
  keys (FILES st) = map file_name (seq 1 (dict_len (FILES st))).

(** The store after a sequence of requests. *)
Definition run (unicode_lower : str -> str) (PyPDF2 : option pdf_module)
  (requests : list request) (st : Store) : Store :=
  fold_left (fun st r => handle unicode_lower PyPDF2 r st) requests st.

(** What [analyze] computes from the bytes of a stored file. *)
Definition analysis_of (unicode_lower : str -> str) (PyPDF2 : option pdf_module)
  (file_id : string) (data : bytes) : outcome AnalysisResult :=
  text <- pipeline_text PyPDF2 data ;;
  analysis <- enhanced_risk_analysis unicode_lower text ;;
  Returns {| file_id := file_id;
             res_summary := summary analysis;
             res_risk_score := risk_score analysis;
             res_details := details analysis |}.

(** A sentence mentions one of the flagged terms, as line 199 tests it. *)
Definition mentions (unicode_lower : str -> str) (flagged : list str) (s : str)
  : bool :=
  existsb (fun term => contains term (lower unicode_lower s)) flagged.

(** The text holds nothing but white space. *)
Definition blank (text : str) : bool := forallb isspace text.

(** [min(n / 100.0, 1.0)], or [None] when it raises. *)
Definition capped_ratio (n : Z) : option float64 :=
  match int_truediv_float n f64_100 with
  | Returns q => Some (min2 q f64_1)
  | Raises _ => None
  end.

(** At the score [n] the cap is reached exactly from 100 on. *)
Definition cap_agrees (n : Z) : bool :=
  match capped_ratio n with
  | Some x => Bool.eqb (f64_eq x f64_1) (100 <=? n)%Z
              && Bool.eqb (f64_lt x f64_1) (n <? 100)%Z
  | None => false
  end.

(** At the score [n] the quotient [n / 100.0] is returned, it exceeds [1.0]
    exactly when [n] exceeds 100, and it compares equal to itself (it is not
    a NaN). *)
Definition quotient_agrees (n : Z) : bool :=
  match int_truediv_float n f64_100 with
  | Returns q =>
      Bool.eqb (f64_lt f64_1 q) (100 <? n)%Z
      && Bool.eqb (f64_le q f64_1) (n <=? 100)%Z
      && f64_le q q
  | Raises _ => false
  end.

Definition f64_0_5 : float64 := Eval vm_compute in Prim2SF 0.5%float.

(** The reachable scores, each with its capped ratio. *)
Definition scored : list (Z * option float64) :=
  map (fun n => (n, capped_ratio n)) reachable_scores.

(** From a reachable score to any larger one the capped ratio does not
    decrease. *)
Definition ratios_monotone : bool :=
  let table := scored in
  forallb (fun a =>
             forallb (fun b =>
                        negb (fst a <=? fst b)%Z
                        || match snd a, snd b with
                           | Some x, Some y => f64_le x y
                           | _, _ => false
                           end)
                     table)
          table.

(** A term no sentence boundary can cut and no [strip] can shorten: it is
    not empty, holds none of [.], [!], [?], and neither begins nor ends with
    white space. *)
Definition unbreakable (term : str) : bool :=
  truthy term
  && forallb (fun c => negb (is_end_mark c)) term
  && negb (isspace (hd 0 term))
  && negb (isspace (hd 0 (rev term))).

(** A Unicode scalar value: a code point up to U+10FFFF that is not a
    surrogate. *)
Definition is_scalar (c : codepoint) : bool :=
  (c <? 0xD800) || ((0xDFFF <? c) && (c <? 0x110000)).

(** The pages a reader yields when iterating them does not raise. *)
Definition pages_of (l : list page) : pages := fold_right PagesNext PagesEnd l.

(** What a page contributes to the extracted text. *)
Definition page_text (p : page) : str :=
  match p with
  | Returns (Some s) => s
  | Returns None => lit ""
  | Raises _ => lit ""
  end.

(** The number of places where a run of word characters begins. *)
Fixpoint word_starts (is_word : codepoint -> bool) (before_is_word : bool)
  (s : str) : nat :=
  match s with
  | [] => 0%nat
  | c :: s' =>
      ((if negb before_is_word && is_word c then 1 else 0)
       + word_starts is_word (is_word c) s')%nat
  end.

(** The number of places where [\bkw\b] matches. *)
Fixpoint keyword_hits (unicode_isalnum : codepoint -> bool) (kw : str)
  (before_is_word : bool) (s : str) : nat :=
  match s with
  | [] => 0%nat
  | c :: s' =>
      ((if keyword_here unicode_isalnum kw before_is_word s then 1 else 0)
       + keyword_hits unicode_isalnum kw (is_word unicode_isalnum c) s')%nat
  end.

(** The tail of [s] after [kw] does not go on with a word character. *)
Definition ends_word (unicode_isalnum : codepoint -> bool) (kw s : str) : bool :=
  match skipn (List.length kw) s with
  | [] => true
  | c :: _ => negb (is_word unicode_isalnum c)
  end.

(** A keyword the frequency analysis can look for: not empty and made of
    ASCII word characters. *)
Definition plain_word (kw : str) : bool :=
  truthy kw && forallb (fun c => (c <? 0x80) && ascii_isword c) kw.

(** The sections [simple_text_analysis] joins into [flagged_sections]. *)
Definition flagged_section_list (unicode_lower : str -> str)
  (unicode_isalnum : codepoint -> bool) (text : str) : list str :=
  map (snippet text)
      (firstn 10 (keyword_occurrences unicode_isalnum (lower unicode_lower text))).

(** Whether the character before a position is a word character: the last
    of [before], or [flag] when [before] is empty. *)
Definition prev_is_word (unicode_isalnum : codepoint -> bool) (flag : bool)
  (before : str) : bool :=
  match rev before with
  | [] => flag
  | c :: _ => is_word unicode_isalnum c
  end.

Definition next_is_word (unicode_isalnum : codepoint -> bool) (after : str)
  : bool :=
  match after with
  | [] => false
  | c :: _ => is_word unicode_isalnum c
  end.

(** [kw] stands in [s] at index [i] as a whole word: no word character
    right before it and none right after it. *)
Definition whole_word_at (unicode_isalnum : codepoint -> bool) (kw s : str)
  (i : nat) : Prop :=
  exists before after,
    s = before ++ kw ++ after
    /\ List.length before = i
    /\ prev_is_word unicode_isalnum false before = false
    /\ next_is_word unicode_isalnum after = false.

(** Case analysis over the terms of [RISK_WEIGHTS]: [H : In term (terms
    RISK_WEIGHTS)] is replaced by one goal per term, each handed to [tac]. *)
Ltac each_lexicon_term H tac :=
  unfold terms, RISK_WEIGHTS in H; cbn [map fst In] in H;
  repeat (destruct H as [<-|H]; [tac|]);
  destruct H.

(* ================================================================== *)
(** * The built-ins on sample inputs *)
(* ================================================================== *)

(** The values on the right are what CPython returns. *)

Example re_split_keeps_the_marks :
  re_split_sentences (lit " a.  b! ") = [lit " a."; lit "b!"; lit ""]
  /\ re_split_sentences (lit "Wait...  what?!") = [lit "Wait..."; lit "what?!"]
  /\ re_split_sentences (lit "a . b") = [lit "a ."; lit "b"]
  /\ re_split_sentences (lit "") = [lit ""].
Proof. repeat split. Qed.

Example split_sentences_drops_empty_units :
  split_sentences (lit " a.  b! ") = [lit "a."; lit "b!"]
  /\ split_sentences (lit "No. 5 is fine") = [lit "No."; lit "5 is fine"]
  /\ split_sentences (lit "   ") = [].
Proof. repeat split. Qed.

Example strip_both_ends :
  strip (lit " ok " ++ [0x0A; 0xA0; 0x3000]) = lit "ok".
Proof. reflexivity. Qed.

Example lower_ascii (unicode_lower : str -> str) :
  lower unicode_lower (lit "Money LAUNDERING, Q3!") = lit "money laundering, q3!".
Proof. reflexivity. Qed.

Example lower_non_ascii_is_delegated (unicode_lower : str -> str) :
  lower unicode_lower [0x0391; 0x41] = unicode_lower [0x0391; 0x41].
Proof. reflexivity. Qed.

Example contains_is_substring_search :
  contains (lit "antitrust") (lit "antitrustworthy") = true
  /\ contains (lit "data breach") (lit "data  breach") = false
  /\ contains (lit "") (lit "") = true.
Proof. repeat split. Qed.

Example utf8_well_formed :
  utf8_decode_ignore [x63; x61; x66; xc3; xa9] = [0x63; 0x61; 0x66; 0xE9]
  /\ utf8_decode_ignore [xe2; x82; xac] = [0x20AC]
  /\ utf8_decode_ignore [xf0; x9f; x98; x80] = [0x1F600].
Proof. repeat split. Qed.

Example utf8_ill_formed_is_dropped :
  utf8_decode_ignore [xed; xa0; x80] = []
  /\ utf8_decode_ignore [xc0; xaf; x41] = [0x41]
  /\ utf8_decode_ignore [xe2; x82] = []
  /\ utf8_decode_ignore [xe2; x82; x41] = [0x41]
  /\ utf8_decode_ignore [xf4; x90; x80; x80] = [].
Proof. repeat split. Qed.

Example score_over_100 :
  int_truediv_float 20 f64_100 = Returns f64_0_2
  /\ int_truediv_float 30 f64_100 = Returns f64_0_30
  /\ (exists q, int_truediv_float 110 f64_100 = Returns q /\ min2 q f64_1 = f64_1)
  /\ int_truediv_float 0 f64_100 = Returns f64_0.
Proof.
  split; [|split; [|split]]; try (vm_compute; reflexivity).
  eexists. split; vm_compute; reflexivity.
Qed.

Example float_of_int_range :
  float_of_int (2 ^ 1024 - 2 ^ 970 - 1)
  = Returns (S754_finite false (2 ^ 53 - 1) 971)
  /\ float_of_int (2 ^ 1024 - 2 ^ 970) = Raises OverflowError
  /\ float_of_int (2 ^ 1024) = Raises OverflowError.
Proof. repeat split; vm_compute; reflexivity. Qed.

(* ================================================================== *)
(** * Substring test *)
(* ================================================================== *)

Lemma startswith_spec (prefix s : str) :
  startswith s prefix = true <-> exists rest, s = prefix ++ rest.
Proof.
  revert s; induction prefix as [|p prefix IH]; intros s; simpl.
  - split; [intros _; now exists s | reflexivity].
  - destruct s as [|c s]; simpl.
    + split; [discriminate | intros [rest H]; discriminate].
    + rewrite andb_true_iff, N.eqb_eq, IH. split.
      * intros [-> [rest ->]]. now exists rest.
      * intros [rest H]. injection H as -> ->. split; [reflexivity | now exists rest].
Qed.

Lemma contains_spec (needle hay : str) :
  contains needle hay = true <-> occurs_in needle hay.
Proof.
  unfold occurs_in. induction hay as [|c hay IH].
  - simpl. rewrite orb_false_r, startswith_spec. split.
    + intros [rest H]. exists [], rest. exact H.
    + intros (before & after & H). destruct before; [|discriminate].
      now exists after.
  - cbn [contains]. rewrite orb_true_iff, startswith_spec, IH. split.
    + intros [[rest H] | (before & after & H)].
      * exists [], rest. exact H.
      * exists (c :: before), after. simpl. now rewrite H.
    + intros (before & after & H). destruct before as [|b before].
      * left. now exists after.
      * right. simpl in H. injection H as _ H. now exists before, after.
Qed.

Lemma contains_false_spec (needle hay : str) :
  contains needle hay = false <-> ~ occurs_in needle hay.
Proof.
  rewrite <- contains_spec. destruct (contains needle hay); split; intuition congruence.
Qed.

(* ================================================================== *)
(** * The scan over the lexicon *)
(* ================================================================== *)

Lemma scan_fold (lowered : str) (weights : lexicon) :
  forall flagged score,
    fold_left (scan_step lowered) weights (flagged, score)
    = (flagged ++ terms (matched weights lowered),
       (score + total_weight (matched weights lowered))%Z).
Proof.
  induction weights as [|[term weight] weights IH]; intros flagged score; simpl.
  - now rewrite app_nil_r, Z.add_0_r.
  - destruct (contains term lowered); simpl.
    + rewrite IH, <- app_assoc, <- Z.add_assoc. reflexivity.
    + apply IH.
Qed.

Lemma scan_lexicon_matched (weights : lexicon) (lowered : str) :
  scan_lexicon weights lowered
  = (terms (matched weights lowered), total_weight (matched weights lowered)).
Proof. unfold scan_lexicon. now rewrite scan_fold. Qed.

Lemma in_matched (weights : lexicon) (lowered : str) (item : str * Z) :
  In item (matched weights lowered)
  <-> In item weights /\ occurs_in (fst item) lowered.
Proof. unfold matched. now rewrite filter_In, contains_spec. Qed.

Lemma in_terms_matched (weights : lexicon) (lowered term : str) :
  In term (terms (matched weights lowered))
  <-> In term (terms weights) /\ occurs_in term lowered.
Proof.
  unfold terms. rewrite !in_map_iff. split.
  - intros (item & <- & H). apply in_matched in H as [H1 H2].
    split; [now exists item | exact H2].
  - intros [(item & <- & H1) H2]. exists item. split; [reflexivity|].
    apply in_matched. now split.
Qed.

Lemma Subsequence_filter_map {A B} (f : A -> B) (keep : A -> bool) (l : list A) :
  Subsequence (map f (filter keep l)) (map f l).
Proof.
  induction l as [|x l IH]; simpl; [constructor|].
  destruct (keep x); simpl; now constructor.
Qed.

Lemma Subsequence_In {A} (l m : list A) :
  Subsequence l m -> forall x, In x l -> In x m.
Proof.
  induction 1; intros y Hy; simpl in *; intuition.
Qed.

Lemma Subsequence_NoDup {A} (l m : list A) :
  Subsequence l m -> NoDup m -> NoDup l.
Proof.
  induction 1; intros Hm; [constructor | |].
  - inversion Hm; subst; auto.
  - inversion Hm; subst. constructor; [|auto].
    intros Hin. eapply Subsequence_In in Hin; eauto.
Qed.

Lemma total_weight_nonneg (items : lexicon) :
  (forall term w, In (term, w) items -> (0 < w)%Z) ->
  (0 <= total_weight items)%Z.
Proof.
  induction items as [|[t w] items IH]; intros Hpos; simpl; [lia|].
  assert (0 < w)%Z by (apply (Hpos t); now left).
  assert (0 <= total_weight items)%Z by (apply IH; intros; eapply Hpos; right; eauto).
  lia.
Qed.

Lemma total_weight_pos (items : lexicon) :
  (forall term w, In (term, w) items -> (0 < w)%Z) ->
  items <> [] -> (0 < total_weight items)%Z.
Proof.
  destruct items as [|[t w] items]; intros Hpos Hne; [congruence|]. simpl.
  assert (0 < w)%Z by (apply (Hpos t); now left).
  assert (0 <= total_weight items)%Z
    by (apply total_weight_nonneg; intros; eapply Hpos; right; eauto).
  lia.
Qed.

Lemma total_weight_filter_le (keep : str * Z -> bool) (items : lexicon) :
  (forall term w, In (term, w) items -> (0 < w)%Z) ->
  (total_weight (filter keep items) <= total_weight items)%Z.
Proof.
  induction items as [|[t w] items IH]; intros Hpos; simpl; [lia|].
  assert (0 < w)%Z by (apply (Hpos t); now left).
  assert (total_weight (filter keep items) <= total_weight items)%Z
    by (apply IH; intros; eapply Hpos; right; eauto).
  destruct (keep (t, w)); simpl; lia.
Qed.

(* ================================================================== *)
(** * binary64 facts *)
(* ================================================================== *)

Section Float64.

Local Open Scope Z_scope.

Lemma shr_1_nonneg (mrs : shr_record) :
  0 <= shr_m mrs -> 0 <= shr_m (shr_1 mrs).
Proof.
  destruct mrs as [m r s]; simpl.
  destruct m as [|[p|p|]|[p|p|]]; simpl; lia.
Qed.

Lemma iter_shr_1_nonneg (p : positive) :
  forall mrs, 0 <= shr_m mrs -> 0 <= shr_m (iter_pos shr_1 p mrs).
Proof.
  induction p as [p IH|p IH|]; intros mrs H; simpl.
  - apply IH, IH, shr_1_nonneg, H.
  - apply IH, IH, H.
  - apply shr_1_nonneg, H.
Qed.

Lemma shr_fexp_nonneg (m e : Z) (l : location) :
  0 <= m -> 0 <= shr_m (fst (shr_fexp prec emax m e l)).
Proof.
  intros Hm. unfold shr_fexp, shr.
  assert (H0 : 0 <= shr_m (shr_record_of_loc m l))
    by (destruct l as [|[| |]]; exact Hm).
  destruct (fexp prec emax (Zdigits2 m + e) - e); simpl; auto.
  now apply iter_shr_1_nonneg.
Qed.

Lemma round_nearest_even_nonneg (m : Z) (l : location) :
  0 <= m -> 0 <= round_nearest_even m l.
Proof.
  intros Hm. destruct l as [|[| |]]; simpl; try lia.
  destruct (Z.even m); lia.
Qed.

Lemma binary_round_aux_sign_clear (m e : Z) (l : location) :
  0 <= m -> sign_clear (binary_round_aux prec emax false m e l) = true.
Proof.
  intros Hm. unfold binary_round_aux.
  pose proof (shr_fexp_nonneg m e l Hm) as H1.
  destruct (shr_fexp prec emax m e l) as [mrs' e']. simpl in H1.
  pose proof (shr_fexp_nonneg _ e' loc_Exact
                (round_nearest_even_nonneg _ (loc_of_shr_record mrs') H1)) as H2.
  destruct (shr_fexp prec emax _ e' loc_Exact) as [mrs'' e'']. simpl in H2.
  destruct (shr_m mrs'') as [|q|q]; [reflexivity | | lia].
  destruct (e'' <=? emax - prec); reflexivity.
Qed.

Lemma binary_normalize_sign_clear (n : Z) :
  0 <= n -> sign_clear (binary_normalize prec emax n 0 false) = true.
Proof.
  intros Hn. destruct n as [|p|p]; [reflexivity | | lia].
  unfold binary_normalize, binary_round.
  destruct (shl_align p 0 _) as [mz ez].
  now apply binary_round_aux_sign_clear.
Qed.

Lemma float_of_int_sign_clear (n : Z) (x : float64) :
  0 <= n -> float_of_int n = Returns x ->
  sign_clear x = true /\ forall s, x <> S754_infinity s.
Proof.
  intros Hn. unfold float_of_int.
  pose proof (binary_normalize_sign_clear n Hn) as Hs.
  destruct (binary_normalize prec emax n 0 false) as [s|s| |s m e];
    intros H; inversion H; subst; split; try exact Hs; discriminate.
Qed.

Lemma div_eucl_quotient_nonneg (a : Z) (b : positive) :
  0 <= a -> 0 <= fst (Z.div_eucl a (Zpos b)).
Proof.
  intros Ha. change (fst (Z.div_eucl a (Zpos b))) with (a / Zpos b).
  apply Z.div_pos; lia.
Qed.

Lemma div_by_100_sign_clear (x : float64) :
  sign_clear x = true -> (forall s, x <> S754_infinity s) ->
  sign_clear (SFdiv prec emax x f64_100) = true.
Proof.
  intros Hx Hfin. destruct x as [[|]|s| |[|] m e]; try discriminate.
  - reflexivity.
  - exfalso. now apply (Hfin s).
  - unfold f64_100, SFdiv, SFdiv_core_binary.
    match goal with
    | |- context [Z.div_eucl ?a (Zpos ?b)] =>
        assert (Hq : 0 <= fst (Z.div_eucl a (Zpos b)));
        [ apply div_eucl_quotient_nonneg | destruct (Z.div_eucl a (Zpos b)) as [q r] ]
    end.
    + match goal with
      | |- 0 <= match ?s with 0 => _ | Z.pos _ => _ | Z.neg _ => _ end =>
          destruct s eqn:Hs; try lia
      end.
      apply Z.shiftl_nonneg. lia.
    + simpl in Hq. simpl xorb. now apply binary_round_aux_sign_clear.
Qed.

Lemma f64_compare_flip (m1 m2 : positive) (e1 e2 : Z) :
  SFltb (S754_finite false m1 e1) (S754_finite false m2 e2) = false ->
  SFleb (S754_finite false m2 e2) (S754_finite false m1 e1) = true.
Proof.
  unfold SFltb, SFleb, SFcompare.
  rewrite (Z.compare_antisym e1 e2).
  destruct (e1 ?= e2); simpl; try easy.
  change (Pos.compare_cont Eq m2 m1) with (Pos.compare m2 m1).
  change (Pos.compare_cont Eq m1 m2) with (Pos.compare m1 m2).
  rewrite (Pos.compare_antisym m1 m2).
  destruct (Pos.compare m1 m2); simpl; easy.
Qed.

Lemma min2_in_unit_interval (q : float64) :
  sign_clear q = true -> in_unit_interval (min2 q f64_1).
Proof.
  intros Hq. unfold in_unit_interval, min2, f64_le.
  destruct q as [[|]|[|]| |[|] m e]; try discriminate.
  - split; reflexivity.
  - split; reflexivity.
  - unfold f64_1 at 1.
    destruct (SFltb _ (S754_finite false m e)) eqn:Hlt.
    + split; reflexivity.
    + split; [reflexivity|]. now apply f64_compare_flip.
Qed.

(** *** Conversion of an [int] below [2^1023] stays finite *)

Lemma fexp_binary64 (x : Z) : fexp prec emax x = Z.max (x - 53) (-1074).
Proof. reflexivity. Qed.

Lemma digits2_pos_size (p : positive) : digits2_pos p = Pos.size p.
Proof. induction p; simpl; congruence. Qed.

Lemma Zdigits2_gt (m : Z) : 0 <= m -> m < 2 ^ Zdigits2 m.
Proof.
  destruct m as [|p|p]; intros H; [reflexivity | | lia].
  simpl Zdigits2. rewrite digits2_pos_size.
  pose proof (Pos.size_gt p) as Hp.
  apply Pos2Z.pos_lt_pos in Hp. now rewrite Pos2Z.inj_pow in Hp.
Qed.

Lemma Zdigits2_le (m k : Z) : 0 <= m -> 0 <= k -> m < 2 ^ k -> Zdigits2 m <= k.
Proof.
  destruct m as [|p|p]; intros H Hk Hlt; [exact Hk | | lia].
  simpl Zdigits2. rewrite digits2_pos_size.
  pose proof (Pos.size_le p) as Hp.
  apply Pos2Z.pos_le_pos in Hp. rewrite Pos2Z.inj_pow in Hp.
  change (Z.pos p~0) with (2 * Z.pos p) in Hp.
  assert (Hlt' : 2 ^ Z.pos (Pos.size p) < 2 ^ (k + 1))
    by (rewrite Z.pow_add_r by lia; lia).
  apply Z.pow_lt_mono_r_iff in Hlt'; lia.
Qed.

Lemma shr_1_half (mrs : shr_record) :
  0 <= shr_m mrs -> 2 * shr_m (shr_1 mrs) <= shr_m mrs.
Proof.
  destruct mrs as [m r s]; simpl.
  destruct m as [|[p|p|]|[p|p|]]; simpl; lia.
Qed.

Lemma iter_shr_1_bound (p : positive) :
  forall mrs, 0 <= shr_m mrs ->
              2 ^ Z.pos p * shr_m (iter_pos shr_1 p mrs) <= shr_m mrs.
Proof.
  induction p as [p IH|p IH|]; intros mrs H; simpl iter_pos.
  - pose proof (shr_1_half mrs H) as H1.
    pose proof (shr_1_nonneg mrs H) as N1.
    pose proof (IH _ N1) as H2.
    pose proof (iter_shr_1_nonneg p _ N1) as N2.
    pose proof (IH _ N2) as H3.
    pose proof (iter_shr_1_nonneg p _ N2) as N3.
    rewrite (Pos2Z.inj_xI p).
    replace (2 * Z.pos p + 1) with (Z.pos p + Z.pos p + 1) by lia.
    rewrite !Z.pow_add_r, Z.pow_1_r by lia.
    assert (0 < 2 ^ Z.pos p) by (apply Z.pow_pos_nonneg; lia).
    nia.
  - pose proof (IH _ H) as H2.
    pose proof (iter_shr_1_nonneg p _ H) as N2.
    pose proof (IH _ N2) as H3.
    pose proof (iter_shr_1_nonneg p _ N2) as N3.
    rewrite (Pos2Z.inj_xO p).
    replace (2 * Z.pos p) with (Z.pos p + Z.pos p) by lia.
    rewrite Z.pow_add_r by lia.
    assert (0 < 2 ^ Z.pos p) by (apply Z.pow_pos_nonneg; lia).
    nia.
  - change (2 ^ 1) with 2. now apply shr_1_half.
Qed.

Lemma shr_exponent (mrs : shr_record) (e n : Z) :
  snd (shr mrs e n) = e + Z.max n 0.
Proof. destruct n; simpl; lia. Qed.

Lemma shr_mantissa_bound (mrs : shr_record) (e n : Z) :
  0 <= shr_m mrs ->
  2 ^ Z.max n 0 * shr_m (fst (shr mrs e n)) <= shr_m mrs.
Proof.
  intros H. destruct n as [|p|p]; simpl fst.
  - change (2 ^ Z.max 0 0) with 1. lia.
  - rewrite Z.max_l by lia. now apply iter_shr_1_bound.
  - change (2 ^ Z.max (Z.neg p) 0) with 1. lia.
Qed.

Lemma shr_fexp_spec (m e : Z) (l : location) :
  0 <= m ->
  snd (shr_fexp prec emax m e l) = Z.max e (fexp prec emax (Zdigits2 m + e))
  /\ 0 <= shr_m (fst (shr_fexp prec emax m e l)) < 2 ^ 53.
Proof.
  intros Hm. pose proof (shr_fexp_nonneg m e l Hm) as Hn.
  unfold shr_fexp in *. rewrite shr_exponent.
  set (k := fexp prec emax (Zdigits2 m + e) - e) in *.
  split; [lia|]. split; [exact Hn|].
  assert (H0 : shr_m (shr_record_of_loc m l) = m)
    by (destruct l as [|[| |]]; reflexivity).
  pose proof (shr_mantissa_bound (shr_record_of_loc m l) e k) as Hb.
  rewrite H0 in Hb. specialize (Hb Hm).
  set (m1 := shr_m (fst (shr (shr_record_of_loc m l) e k))) in *.
  pose proof (Zdigits2_gt m Hm) as Hd.
  assert (Hdn : 0 <= Zdigits2 m) by (destruct m; simpl; lia).
  assert (Hk : Zdigits2 m <= 53 + Z.max k 0).
  { unfold k. rewrite fexp_binary64. lia. }
  assert (Hp : 2 ^ Zdigits2 m <= 2 ^ (53 + Z.max k 0))
    by (apply Z.pow_le_mono_r; lia).
  rewrite Z.pow_add_r in Hp by lia.
  assert (0 < 2 ^ Z.max k 0) by (apply Z.pow_pos_nonneg; lia).
  nia.
Qed.

Lemma round_nearest_even_le (m : Z) (l : location) :
  round_nearest_even m l <= m + 1.
Proof.
  destruct l as [|[| |]]; simpl; try lia. destruct (Z.even m); lia.
Qed.

Lemma binary_round_aux_finite (m e : Z) (l : location) :
  0 <= m -> e <= 970 -> Zdigits2 m + e <= 1023 ->
  forall s, binary_round_aux prec emax false m e l <> S754_infinity s.
Proof.
  intros Hm He Hd s. unfold binary_round_aux.
  destruct (shr_fexp_spec m e l Hm) as [E1 [N1 B1]].
  destruct (shr_fexp prec emax m e l) as [mrs' e']. simpl in E1, N1, B1.
  set (m2 := round_nearest_even (shr_m mrs') (loc_of_shr_record mrs')).
  assert (N2 : 0 <= m2) by now apply round_nearest_even_nonneg.
  assert (B2 : m2 <= shr_m mrs' + 1) by apply round_nearest_even_le.
  destruct (shr_fexp_spec m2 e' loc_Exact N2) as [E2 _].
  destruct (shr_fexp prec emax m2 e' loc_Exact) as [mrs'' e'']. simpl in E2.
  assert (D2 : Zdigits2 m2 <= 54).
  { apply Zdigits2_le; [exact N2 | lia |].
    change (2 ^ 54) with (2 * 2 ^ 53). lia. }
  rewrite fexp_binary64 in E1, E2.
  destruct (shr_m mrs'') as [|q|q]; try discriminate.
  replace (e'' <=? emax - prec) with true; [discriminate|].
  symmetry. apply Z.leb_le. change (emax - prec) with 971. lia.
Qed.

Lemma digits2_pos_iter_xO (p k : positive) :
  digits2_pos (Pos.iter xO p k) = (digits2_pos p + k)%positive.
Proof.
  induction k as [|k IH] using Pos.peano_ind.
  - simpl. now rewrite Pos.add_1_r.
  - rewrite Pos.iter_succ. simpl. rewrite IH. now rewrite Pos.add_succ_r.
Qed.

Lemma float_of_int_returns (n : Z) :
  0 <= n < 2 ^ 1023 -> exists x, float_of_int n = Returns x.
Proof.
  intros [Hn Hlt]. unfold float_of_int.
  assert (Hfin : forall s, binary_normalize prec emax n 0 false <> S754_infinity s).
  { destruct n as [|p|p]; [discriminate | | lia].
    assert (Hd : Zdigits2 (Z.pos p) <= 1023)
      by (apply Zdigits2_le; lia).
    unfold binary_normalize, binary_round, shl_align.
    set (ex := fexp prec emax (Z.pos (digits2_pos p) + 0)).
    destruct (ex - 0) as [|d|d] eqn:Hex.
    - apply binary_round_aux_finite; [lia | lia | simpl in *; lia].
    - apply binary_round_aux_finite; [lia | lia | simpl in *; lia].
    - apply binary_round_aux_finite; [lia | lia |].
      simpl Zdigits2 in *. rewrite digits2_pos_iter_xO. lia. }
  destruct (binary_normalize prec emax n 0 false) as [s|s| |s m e].
  - eexists; reflexivity.
  - now destruct (Hfin s).
  - eexists; reflexivity.
  - eexists; reflexivity.
Qed.

Lemma int_truediv_100_returns (n : Z) :
  0 <= n < 2 ^ 1023 -> exists q, int_truediv_float n f64_100 = Returns q.
Proof.
  intros H. destruct (float_of_int_returns n H) as [x Hx].
  unfold int_truediv_float. rewrite Hx. simpl bind.
  change (SFeqb f64_100 f64_0) with false. cbv iota.
  eexists; reflexivity.
Qed.

(** [min(n / 100.0, 1.0)] for a non-negative [int], when it returns. *)
Lemma capped_ratio_in_unit_interval (n : Z) (q : float64) :
  0 <= n -> int_truediv_float n f64_100 = Returns q ->
  in_unit_interval (min2 q f64_1).
Proof.
  intros Hn. unfold int_truediv_float, bind.
  destruct (float_of_int n) as [x|e] eqn:Hx; [|discriminate].
  change (SFeqb f64_100 f64_0) with false. cbv iota.
  intros H; inversion H; subst.
  destruct (float_of_int_sign_clear n x Hn Hx) as [Hs Hfin].
  apply min2_in_unit_interval. now apply div_by_100_sign_clear.
Qed.

End Float64.

(* ================================================================== *)
(** * The scorer *)
(* ================================================================== *)

Section Scorer.

Variable unicode_lower : str -> str.

(** The analysis in terms of the matched entries. *)
Lemma risk_analysis_matched (weights : lexicon) (text : str) :
  risk_analysis unicode_lower weights text
  = (q <- int_truediv_float
            (total_weight (matched weights (lower unicode_lower text))) f64_100 ;;
     Returns
       {| summary := summarize unicode_lower text
                       (terms (matched weights (lower unicode_lower text)));
          risk_score := min2 q f64_1;
          details :=
            {| flagged_terms := terms (matched weights (lower unicode_lower text));
               recommendations :=
                 recommend (terms (matched weights (lower unicode_lower text))) |} |}).
Proof.
  unfold risk_analysis. now rewrite scan_lexicon_matched.
Qed.

Lemma RISK_WEIGHTS_positive :
  forall term w, In (term, w) RISK_WEIGHTS -> (0 < w)%Z.
Proof.
  intros term w H. unfold RISK_WEIGHTS in H. simpl in H.
  repeat (destruct H as [H|H]; [injection H as _ <-; reflexivity|]).
  destruct H.
Qed.

Lemma RISK_WEIGHTS_terms_NoDup : NoDup (terms RISK_WEIGHTS).
Proof.
  cbv. repeat constructor; intros H;
    repeat (destruct H as [H|H]; [discriminate H|]); exact H.
Qed.

Lemma reachable_scores_agree : forallb score_agrees reachable_scores = true.
Proof. vm_compute. reflexivity. Qed.

Lemma matched_score_reachable (lowered : str) :
  In (total_weight (matched RISK_WEIGHTS lowered)) reachable_scores.
Proof.
  pose proof (total_weight_filter_le
                (fun item => contains (fst item) lowered) RISK_WEIGHTS
                RISK_WEIGHTS_positive) as Hle.
  assert (Hge : (0 <= total_weight (matched RISK_WEIGHTS lowered))%Z).
  { apply total_weight_nonneg. intros t w H.
    apply in_matched in H as [H _]. now apply (RISK_WEIGHTS_positive t). }
  fold (matched RISK_WEIGHTS lowered) in Hle.
  set (n := total_weight (matched RISK_WEIGHTS lowered)) in *.
  unfold reachable_scores. apply in_map_iff.
  exists (Z.to_nat n). split; [lia|].
  apply in_seq. lia.
Qed.

Lemma matched_score_agrees (lowered : str) :
  score_agrees (total_weight (matched RISK_WEIGHTS lowered)) = true.
Proof.
  pose proof reachable_scores_agree as H.
  rewrite forallb_forall in H. apply H, matched_score_reachable.
Qed.

(** With the built-in table the analysis always returns. *)
Lemma enhanced_risk_analysis_returns (text : str) :
  exists q,
    int_truediv_float (total_weight (matched RISK_WEIGHTS (lower unicode_lower text))) f64_100
    = Returns q
    /\ enhanced_risk_analysis unicode_lower text
       = Returns
           {| summary := summarize unicode_lower text
                           (terms (matched RISK_WEIGHTS (lower unicode_lower text)));
              risk_score := min2 q f64_1;
              details :=
                {| flagged_terms := terms (matched RISK_WEIGHTS (lower unicode_lower text));
                   recommendations :=
                     recommend (terms (matched RISK_WEIGHTS (lower unicode_lower text))) |} |}.
Proof.
  pose proof (matched_score_agrees (lower unicode_lower text)) as H.
  unfold score_agrees in H.
  destruct (int_truediv_float _ f64_100) as [q|e] eqn:Hq; [|discriminate].
  exists q. split; [reflexivity|].
  unfold enhanced_risk_analysis. rewrite risk_analysis_matched, Hq. reflexivity.
Qed.

Lemma matched_nil_iff (weights : lexicon) (lowered : str) :
  matched weights lowered = []
  <-> forall term, In term (terms weights) -> ~ occurs_in term lowered.
Proof.
  split.
  - intros H term Hin Hocc.
    assert (Hm : In term (terms (matched weights lowered)))
      by (apply in_terms_matched; now split).
    rewrite H in Hm. exact Hm.
  - intros H. destruct (matched weights lowered) as [|[t w] rest] eqn:Hm; [reflexivity|].
    exfalso.
    assert (Hin : In (t, w) (matched weights lowered)) by (rewrite Hm; now left).
    apply in_matched in Hin as [Hin Hocc].
    apply (H t); [|exact Hocc].
    unfold terms. apply in_map_iff. now exists (t, w).
Qed.

End Scorer.

(* ================================================================== *)
(** * The summarizer *)
(* ================================================================== *)

Section Summarizer.

Variable unicode_lower : str -> str.

Lemma select_sentences_no_flag (sentences : list str) :
  select_sentences unicode_lower [] sentences
  = match sentences with
    | [] => []
    | first :: _ => [first]
    end.
Proof.
  unfold select_sentences. simpl existsb.
  assert (H : filter (fun _ : str => false) sentences = []).
  { induction sentences as [|s l IH]; [reflexivity | exact IH]. }
  rewrite H. destruct sentences; reflexivity.
Qed.

Lemma summarize_no_flag (text : str) :
  summarize unicode_lower text []
  = match split_sentences text with
    | [] => lit ""
    | first :: _ => first ++ lit "."
    end.
Proof.
  unfold summarize. rewrite select_sentences_no_flag.
  destruct (split_sentences text); reflexivity.
Qed.

End Summarizer.

Lemma bribery_antitrust_alone (lowered : str) :
  occurs_in (lit "bribery") lowered ->
  occurs_in (lit "antitrust") lowered ->
  (forall term, In term (terms RISK_WEIGHTS) -> occurs_in term lowered ->
                term = lit "bribery" \/ term = lit "antitrust") ->
  matched RISK_WEIGHTS lowered = [(lit "bribery", 15%Z); (lit "antitrust", 15%Z)].
Proof.
  intros Hb Ha Hother. apply contains_spec in Hb, Ha.
  assert (Hfalse : forall t, In t (terms RISK_WEIGHTS) ->
                             t <> lit "bribery" -> t <> lit "antitrust" ->
                             contains t lowered = false).
  { intros t Hin H1 H2. apply contains_false_spec. intros Ho.
    destruct (Hother t Hin Ho); congruence. }
  set (g := fun item : str * Z =>
              if list_eq_dec N.eq_dec (fst item) (lit "bribery") then true
              else if list_eq_dec N.eq_dec (fst item) (lit "antitrust") then true
                   else false).
  unfold matched. rewrite (filter_ext_in _ g).
  - vm_compute. reflexivity.
  - intros [t w] Hin. unfold g. cbn [fst].
    destruct (list_eq_dec N.eq_dec t (lit "bribery")) as [->|H1]; [exact Hb|].
    destruct (list_eq_dec N.eq_dec t (lit "antitrust")) as [->|H2]; [exact Ha|].
    apply Hfalse; try assumption.
    unfold terms. apply in_map_iff. now exists (t, w).
Qed.

(** ** The scorer and the endpoint on sample inputs *)

Example repeated_term_counts_once (unicode_lower : str -> str) :
  exists r,
    enhanced_risk_analysis unicode_lower (lit "Fraud! More fraud? FRAUD.") = Returns r
    /\ flagged_terms (details r) = [lit "fraud"]
    /\ risk_score r = f64_0_2.
Proof. eexists. split; [vm_compute; reflexivity|]. split; reflexivity. Qed.

Example flagged_terms_follow_the_lexicon (unicode_lower : str -> str) :
  exists r,
    enhanced_risk_analysis unicode_lower
      (lit "Antitrust first, then sanctions, then fraud.") = Returns r
    /\ flagged_terms (details r) = [lit "fraud"; lit "sanctions"; lit "antitrust"].
Proof. eexists. split; [vm_compute; reflexivity|]. reflexivity. Qed.

Example every_term_caps_the_score (unicode_lower : str -> str) :
  exists r,
    enhanced_risk_analysis unicode_lower
      (lit "fraud bribery sanctions bankruptcy money laundering litigation"
       ++ lit " regulatory fines tax evasion data breach antitrust")
    = Returns r
    /\ risk_score r = f64_1.
Proof. eexists. split; [vm_compute; reflexivity|]. reflexivity. Qed.

Example oversized_weight_raises (unicode_lower : str -> str) :
  risk_analysis unicode_lower [(lit "a", 2 ^ 1024)%Z] (lit "a") = Raises OverflowError.
Proof. vm_compute. reflexivity. Qed.

Example negative_weight_leaves_the_interval (unicode_lower : str -> str) :
  exists r,
    risk_analysis unicode_lower [(lit "a", -5)%Z] (lit "a") = Returns r
    /\ f64_le f64_0 (risk_score r) = false.
Proof. eexists. split; [vm_compute; reflexivity|]. reflexivity. Qed.

Example analyze_unknown_file (unicode_lower : str -> str) (PyPDF2 : option pdf_module) :
  analyze unicode_lower PyPDF2 {| req_file_id := "file_7" |}
          {| FILES := []; ANALYSES := [] |}
  = (Raises (HTTPException 404 "File not found"), {| FILES := []; ANALYSES := [] |}).
Proof. reflexivity. Qed.

(* ================================================================== *)
(** * Properties of the pipeline *)
(* ================================================================== *)

Lemma reachable_scores_quotient : forallb quotient_agrees reachable_scores = true.
Proof. vm_compute. reflexivity. Qed.

Lemma int_truediv_float_100 (n : Z) (q : float64) :
  int_truediv_float n f64_100 = Returns q ->
  q = SFdiv prec emax (binary_normalize prec emax n 0 false) f64_100.
Proof.
  unfold int_truediv_float, float_of_int, bind.
  change (SFeqb f64_100 f64_0) with false. cbv iota.
  destruct (binary_normalize prec emax n 0 false); intros H;
    first [discriminate H | now injection H as <-].
Qed.

Lemma f64_lt_le (a b : float64) : f64_lt a b = true -> f64_le a b = true.
Proof.
  unfold f64_lt, f64_le, SFltb, SFleb.
  destruct (SFcompare a b) as [[| |]|]; congruence.
Qed.

(** C1, as the code has it. For every text the scorer's total weight is the
    sum of the weights of exactly the lexicon entries whose term occurs in
    the lowercased text, each entry once, and the returned [risk_score] is
    [min(total_weight / 100.0, 1.0)]: the binary64 quotient of the total by
    [100.0] while the total is at most 100, and [1.0] from 100 on, so never
    above the quotient nor above [1.0]. A text in which "bribery" and
    "antitrust" are the only lexicon terms that occur gets [risk_score]
    [0.30]. *)
Theorem C1_risk_score_is_capped_matched_weight
  (unicode_lower : str -> str) (text : str) :
  exists (r : Analysis) (q : float64),
    enhanced_risk_analysis unicode_lower text = Returns r
    /\ (forall term w,
          In (term, w) (matched RISK_WEIGHTS (lower unicode_lower text))
          <-> In (term, w) RISK_WEIGHTS /\ present unicode_lower term text)
    /\ NoDup (matched RISK_WEIGHTS (lower unicode_lower text))
    /\ scan_lexicon RISK_WEIGHTS (lower unicode_lower text)
       = (terms (matched RISK_WEIGHTS (lower unicode_lower text)),
          total_weight (matched RISK_WEIGHTS (lower unicode_lower text)))
    /\ flagged_terms (details r)
       = terms (matched RISK_WEIGHTS (lower unicode_lower text))
    /\ int_truediv_float
         (total_weight (matched RISK_WEIGHTS (lower unicode_lower text))) f64_100
       = Returns q
    /\ q = SFdiv prec emax
             (binary_normalize prec emax
                (total_weight (matched RISK_WEIGHTS (lower unicode_lower text)))
                0 false)
             f64_100
    /\ risk_score r = min2 q f64_1
    /\ ((total_weight (matched RISK_WEIGHTS (lower unicode_lower text)) <= 100)%Z ->
        risk_score r = q)
    /\ ((100 <= total_weight (matched RISK_WEIGHTS (lower unicode_lower text)))%Z ->
        risk_score r = f64_1)
    /\ (f64_le q f64_1 = true -> risk_score r = q)
    /\ (f64_le q f64_1 = false -> risk_score r = f64_1)
    /\ f64_le (risk_score r) q = true
    /\ f64_le (risk_score r) f64_1 = true
    /\ (present unicode_lower (lit "bribery") text ->
        present unicode_lower (lit "antitrust") text ->
        (forall term, In term (terms RISK_WEIGHTS) ->
                      present unicode_lower term text ->
                      term = lit "bribery" \/ term = lit "antitrust") ->
        risk_score r = f64_0_30
        /\ flagged_terms (details r) = [lit "bribery"; lit "antitrust"]).
Proof.
  destruct (enhanced_risk_analysis_returns unicode_lower text) as (q & Hq & Hr).
  pose proof (matched_score_reachable (lower unicode_lower text)) as Hreach.
  pose proof reachable_scores_quotient as Htab. rewrite forallb_forall in Htab.
  specialize (Htab _ Hreach). unfold quotient_agrees in Htab. rewrite Hq in Htab.
  apply andb_true_iff in Htab as [Htab Hqq].
  apply andb_true_iff in Htab as [Hlt Hle].
  apply Bool.eqb_prop in Hlt, Hle.
  eexists; exists q. split; [exact Hr|].
  cbn [risk_score details flagged_terms].
  split; [intros term w; apply (in_matched _ _ (term, w))|].
  split.
  { apply NoDup_filter. apply (NoDup_map_inv fst). exact RISK_WEIGHTS_terms_NoDup. }
  split; [apply scan_lexicon_matched|].
  split; [reflexivity|].
  split; [exact Hq|].
  split; [exact (int_truediv_float_100 _ _ Hq)|].
  split; [reflexivity|].
  set (W := total_weight (matched RISK_WEIGHTS (lower unicode_lower text))) in *.
  assert (Hbelow : (W <= 100)%Z -> min2 q f64_1 = q).
  { intros H. unfold min2. unfold f64_lt in Hlt. rewrite Hlt.
    destruct (Z.ltb_spec 100 W); [lia | reflexivity]. }
  assert (Habove : (100 < W)%Z -> min2 q f64_1 = f64_1).
  { intros H. unfold min2. unfold f64_lt in Hlt. rewrite Hlt.
    destruct (Z.ltb_spec 100 W); [reflexivity | lia]. }
  assert (Hat : W = 100%Z -> min2 q f64_1 = f64_1).
  { intros H. rewrite H in Hq. vm_compute in Hq. injection Hq as <-.
    vm_compute. reflexivity. }
  split; [exact Hbelow|].
  split.
  { intros H. destruct (Z.eq_dec W 100) as [E|E]; [now apply Hat | apply Habove; lia]. }
  split.
  { intros H. apply Hbelow. rewrite Hle in H. now apply Z.leb_le. }
  split.
  { intros H. apply Habove. rewrite Hle in H. now apply Z.leb_gt. }
  split.
  { destruct (Z.le_gt_cases W 100) as [H|H].
    - rewrite (Hbelow H). exact Hqq.
    - rewrite (Habove H). apply f64_lt_le. rewrite Hlt. now apply Z.ltb_lt. }
  split.
  { destruct (Z.le_gt_cases W 100) as [H|H].
    - rewrite (Hbelow H), Hle. now apply Z.leb_le.
    - rewrite (Habove H). vm_compute. reflexivity. }
  intros Hb Ha Hother. subst W.
  rewrite (bribery_antitrust_alone _ Hb Ha Hother) in Hq |- *.
  vm_compute in Hq. injection Hq as <-. split; vm_compute; reflexivity.
Qed.

(** C1 at a text in which "antitrust" comes before "bribery" and no other
    term occurs, and at a text whose matched weights (110) pass the cap. *)
Lemma C1_bribery_antitrust_example :
  (exists r,
     enhanced_risk_analysis (fun s => s)
       (lit "Antitrust probe opened after the BRIBERY case.") = Returns r
     /\ risk_score r = f64_0_30
     /\ flagged_terms (details r) = [lit "bribery"; lit "antitrust"])
  /\ (exists r,
        enhanced_risk_analysis (fun s => s)
          (lit "Fraud, sanctions, money laundering, a data breach and a fine for tax evasion.")
        = Returns r
        /\ risk_score r = f64_1).
Proof.
  split.
  - destruct (C1_risk_score_is_capped_matched_weight (fun s => s)
                (lit "Antitrust probe opened after the BRIBERY case."))
      as (r & q & Hr & _ & _ & _ & _ & _ & _ & _ & _ & _ & _ & _ & _ & _ & Hex).
    exists r. split; [exact Hr|]. apply Hex.
    + apply contains_spec. vm_compute. reflexivity.
    + apply contains_spec. vm_compute. reflexivity.
    + intros term Hin Hp. apply contains_spec in Hp.
      each_lexicon_term Hin
        ltac:(first [ left; reflexivity | right; reflexivity
                    | vm_compute in Hp; discriminate Hp ]).
  - destruct (C1_risk_score_is_capped_matched_weight (fun s => s)
                (lit "Fraud, sanctions, money laundering, a data breach and a fine for tax evasion."))
      as (r & q & Hr & _ & _ & _ & _ & _ & _ & _ & _ & Hcap & _).
    exists r. split; [exact Hr|]. apply Hcap.
    apply Z.leb_le. vm_compute. reflexivity.
Defined.

(** C1, as stated, fails: the text below contains both "bribery" and
    "antitrust", and "fraud" besides, so its [risk_score] is [0.5] and not
    [0.30]. *)
Lemma C1_third_term_raises_the_score :
  present (fun s => s) (lit "bribery") (lit "bribery and antitrust and fraud")
  /\ present (fun s => s) (lit "antitrust") (lit "bribery and antitrust and fraud")
  /\ enhanced_risk_analysis (fun s => s) (lit "bribery and antitrust and fraud")
     = Returns {| summary := lit "bribery and antitrust and fraud.";
                  risk_score := f64_0_5;
                  details := {| flagged_terms :=
                                  [lit "fraud"; lit "bribery"; lit "antitrust"];
                                recommendations := REVIEW_MESSAGE |} |}
  /\ f64_eq f64_0_5 f64_0_30 = false
  /\ f64_0_5 <> f64_0_30.
Proof.
  split; [|split; [|split; [|split]]].
  - apply contains_spec. vm_compute. reflexivity.
  - apply contains_spec. vm_compute. reflexivity.
  - vm_compute. reflexivity.
  - vm_compute. reflexivity.
  - intros H. vm_compute in H. discriminate H.
Qed.

(** C2. For every lexicon with positive integer weights and every text, the
    [risk_score] the scorer returns lies in [[0.0, 1.0]], however many terms
    match and however long the text is; the scorer does return whenever the
    lexicon's total weight is below [2^1023], the built-in table included. *)
Theorem C2_risk_score_in_unit_interval
  (unicode_lower : str -> str) (weights : lexicon) (text : str) :
  (forall term w, In (term, w) weights -> (0 < w)%Z) ->
  (forall r, risk_analysis unicode_lower weights text = Returns r ->
             in_unit_interval (risk_score r))
  /\ ((total_weight weights < 2 ^ 1023)%Z ->
      exists r, risk_analysis unicode_lower weights text = Returns r
                /\ in_unit_interval (risk_score r)).
Proof.
  intros Hpos.
  assert (Hge : (0 <= total_weight (matched weights (lower unicode_lower text)))%Z).
  { apply total_weight_nonneg. intros t w H.
    apply in_matched in H as [H _]. now apply (Hpos t). }
  assert (Hpartial : forall r, risk_analysis unicode_lower weights text = Returns r ->
                               in_unit_interval (risk_score r)).
  { intros r. rewrite risk_analysis_matched. unfold bind.
    destruct (int_truediv_float _ f64_100) as [q|e] eqn:Hq; [|discriminate].
    intros H; injection H as <-. cbn [risk_score].
    eapply capped_ratio_in_unit_interval; eassumption. }
  split; [exact Hpartial|].
  intros Hlt.
  pose proof (total_weight_filter_le
                (fun item => contains (fst item) (lower unicode_lower text))
                weights Hpos) as Hle.
  fold (matched weights (lower unicode_lower text)) in Hle.
  destruct (int_truediv_100_returns
              (total_weight (matched weights (lower unicode_lower text))))
    as [q Hq]; [lia|].
  assert (Hr : exists r, risk_analysis unicode_lower weights text = Returns r).
  { rewrite risk_analysis_matched, Hq. eexists; reflexivity. }
  destruct Hr as [r Hr]. exists r. split; [exact Hr | now apply Hpartial].
Qed.

(** C2 at the built-in lexicon and a text whose matched weights exceed 100. *)
Lemma C2_capped_example :
  exists r,
    enhanced_risk_analysis (fun s => s)
      (lit "Fraud, sanctions, money laundering, a data breach and tax evasion.")
    = Returns r
    /\ in_unit_interval (risk_score r).
Proof.
  apply (C2_risk_score_in_unit_interval (fun s => s) RISK_WEIGHTS
           (lit "Fraud, sanctions, money laundering, a data breach and tax evasion.")).
  - intros term w H. unfold RISK_WEIGHTS in H. cbn [In] in H.
    repeat (destruct H as [H|H]; [injection H as _ <-; reflexivity|]).
    destruct H.
  - vm_compute. reflexivity.
Defined.

(** C3. For every text, [flagged_terms] holds each lexicon term at most
    once, is a subsequence of the lexicon's order, and holds only terms that
    occur in the lowercased text. *)
Theorem C3_flagged_terms_subsequence_of_lexicon
  (unicode_lower : str -> str) (text : str) :
  exists r : Analysis,
    enhanced_risk_analysis unicode_lower text = Returns r
    /\ NoDup (flagged_terms (details r))
    /\ Subsequence (flagged_terms (details r)) (terms RISK_WEIGHTS)
    /\ (forall term, In term (flagged_terms (details r)) ->
                     present unicode_lower term text).
Proof.
  destruct (enhanced_risk_analysis_returns unicode_lower text) as (q & _ & Hr).
  eexists. split; [exact Hr|]. cbn [details flagged_terms].
  assert (Hsub : Subsequence (terms (matched RISK_WEIGHTS (lower unicode_lower text)))
                             (terms RISK_WEIGHTS))
    by apply Subsequence_filter_map.
  split; [|split].
  - eapply Subsequence_NoDup; [exact Hsub | exact RISK_WEIGHTS_terms_NoDup].
  - exact Hsub.
  - intros term H. now apply in_terms_matched in H.
Qed.

(** C4. On the text of Example 1 the scorer flags ["fraud"] and returns
    [0.2], and the summary the code builds is the first sentence followed by
    a second period. *)
Theorem C4_example_1_evaluated (unicode_lower : str -> str) :
  enhanced_risk_analysis unicode_lower
    (lit "We detected fraud in the Q3 filings. Revenue grew 5%.")
  = Returns
      {| summary := lit "We detected fraud in the Q3 filings..";
         risk_score := f64_0_2;
         details := {| flagged_terms := [lit "fraud"];
                       recommendations := REVIEW_MESSAGE |} |}
  /\ lit "We detected fraud in the Q3 filings.."
     <> lit "We detected fraud in the Q3 filings.".
Proof.
  split; [vm_compute; reflexivity|].
  intros H. vm_compute in H. discriminate H.
Qed.

(** C5, as the code has it. For every text in which no lexicon term occurs
    (the empty text included) the scorer returns [risk_score] [0.0] and no
    flagged term; the summary is empty when the text has no sentence, and
    otherwise it is built from the first sentence alone, which is followed
    by one period when it does not already end in [.], [!] or [?]. *)
Theorem C5_no_match_scores_zero_and_summarizes_first_sentence
  (unicode_lower : str -> str) (text : str) :
  (forall term, In term (terms RISK_WEIGHTS) -> ~ present unicode_lower term text) ->
  exists r : Analysis,
    enhanced_risk_analysis unicode_lower text = Returns r
    /\ risk_score r = f64_0
    /\ flagged_terms (details r) = []
    /\ match split_sentences text with
       | [] => summary r = lit ""
       | first :: _ =>
           select_sentences unicode_lower (flagged_terms (details r))
                            (split_sentences text) = [first]
           /\ (ends_with_end_mark first = false -> summary r = first ++ lit ".")
       end.
Proof.
  intros Habsent.
  destruct (enhanced_risk_analysis_returns unicode_lower text) as (q & Hq & Hr).
  assert (Hm : matched RISK_WEIGHTS (lower unicode_lower text) = [])
    by (apply matched_nil_iff; exact Habsent).
  rewrite Hm in Hq, Hr. vm_compute in Hq. injection Hq as <-.
  eexists. split; [exact Hr|]. cbn [risk_score details flagged_terms summary terms map].
  split; [vm_compute; reflexivity|]. split; [reflexivity|].
  rewrite summarize_no_flag, select_sentences_no_flag.
  destruct (split_sentences text); [reflexivity|]. split; [reflexivity | intros _; reflexivity].
Qed.

(** C5 at a text without any lexicon term and without an end mark. *)
Lemma C5_unterminated_text_example :
  exists r,
    enhanced_risk_analysis (fun s => s) (lit "ok") = Returns r
    /\ risk_score r = f64_0
    /\ flagged_terms (details r) = []
    /\ summary r = lit "ok.".
Proof.
  destruct (C5_no_match_scores_zero_and_summarizes_first_sentence
              (fun s => s) (lit "ok")) as (r & Hr & Hs & Hf & Hsum).
  - intros term Hin. apply contains_false_spec.
    each_lexicon_term Hin ltac:(vm_compute; reflexivity).
  - exists r. repeat (split; [assumption|]).
    change (split_sentences (lit "ok")) with [lit "ok"] in Hsum.
    destruct Hsum as [_ Hsum]. apply Hsum. reflexivity.
Defined.

(** C5, as stated, fails: in "ok" no lexicon term occurs and its first (and
    only) sentence is "ok", yet the summary is "ok.". *)
Lemma C5_summary_differs_from_first_sentence :
  (forall term, In term (terms RISK_WEIGHTS) -> ~ present (fun s => s) term (lit "ok"))
  /\ split_sentences (lit "ok") = [lit "ok"]
  /\ enhanced_risk_analysis (fun s => s) (lit "ok")
     = Returns {| summary := lit "ok.";
                  risk_score := f64_0;
                  details := {| flagged_terms := [];
                                recommendations := CONTINUE_MESSAGE |} |}
  /\ lit "ok." <> lit "ok".
Proof.
  split; [|split; [|split]].
  - intros term Hin. apply contains_false_spec.
    each_lexicon_term Hin ltac:(vm_compute; reflexivity).
  - vm_compute. reflexivity.
  - vm_compute. reflexivity.
  - intros H. vm_compute in H. discriminate H.
Qed.

(** C8. The recommendation is chosen by nothing but whether
    [flagged_terms] is empty: the "review" message exactly when it is not,
    the "continue standard due diligence" message exactly when it is. *)
Theorem C8_recommendation_follows_flagged_terms
  (unicode_lower : str -> str) (text : str) :
  exists r : Analysis,
    enhanced_risk_analysis unicode_lower text = Returns r
    /\ recommendations (details r) = recommend (flagged_terms (details r))
    /\ (recommendations (details r) = REVIEW_MESSAGE
        <-> flagged_terms (details r) <> [])
    /\ (recommendations (details r) = CONTINUE_MESSAGE
        <-> flagged_terms (details r) = []).
Proof.
  destruct (enhanced_risk_analysis_returns unicode_lower text) as (q & _ & Hr).
  eexists. split; [exact Hr|]. cbn [details flagged_terms recommendations].
  split; [reflexivity|].
  assert (Hne : REVIEW_MESSAGE <> CONTINUE_MESSAGE)
    by (intros H; vm_compute in H; discriminate H).
  unfold recommend.
  destruct (terms (matched RISK_WEIGHTS (lower unicode_lower text))); cbn [truthy].
  - split; split; intros H; congruence.
  - split; split; intros H; congruence.
Qed.

(** C10. With the built-in (all positive) weights the [risk_score] is
    strictly positive exactly when a term is flagged, and it equals [0.0]
    exactly when the "continue standard due diligence" recommendation is
    attached. *)
Theorem C10_score_positive_iff_flagged
  (unicode_lower : str -> str) (text : str) :
  exists r : Analysis,
    enhanced_risk_analysis unicode_lower text = Returns r
    /\ (f64_lt f64_0 (risk_score r) = true <-> flagged_terms (details r) <> [])
    /\ (f64_eq (risk_score r) f64_0 = true
        <-> recommendations (details r) = CONTINUE_MESSAGE).
Proof.
  destruct (enhanced_risk_analysis_returns unicode_lower text) as (q & Hq & Hr).
  eexists. split; [exact Hr|].
  cbn [details flagged_terms recommendations risk_score].
  pose proof (matched_score_agrees (lower unicode_lower text)) as Hagree.
  unfold score_agrees in Hagree. rewrite Hq in Hagree.
  apply andb_true_iff in Hagree as [Hlt Heq].
  apply Bool.eqb_prop in Hlt, Heq. rewrite Hlt, Heq.
  set (m := matched RISK_WEIGHTS (lower unicode_lower text)).
  assert (Hpos : forall term w, In (term, w) m -> (0 < w)%Z).
  { intros t w H. apply in_matched in H as [H _]. now apply (RISK_WEIGHTS_positive t). }
  assert (Hne : REVIEW_MESSAGE <> CONTINUE_MESSAGE)
    by (intros H; vm_compute in H; discriminate H).
  destruct m as [|[t w] m'] eqn:Hm.
  - cbn. split; split; intros H; congruence.
  - pose proof (total_weight_pos ((t, w) :: m') Hpos ltac:(discriminate)) as Hw.
    replace (0 <? total_weight ((t, w) :: m'))%Z with true by (symmetry; apply Z.ltb_lt; lia).
    replace (total_weight ((t, w) :: m') =? 0)%Z with false by (symmetry; apply Z.eqb_neq; lia).
    cbn [terms map recommend truthy].
    split; split; intros H; congruence.
Qed.

(* ================================================================== *)
(** * Decoding and extraction *)
(* ================================================================== *)

(** Cutting the input cannot make the decoder produce a character out of
    bytes that yielded none. *)
Lemma utf8_decode_ignore_firstn_nil_aux (len : nat) :
  forall (data : bytes) (n : nat),
    (List.length data <= len)%nat ->
    utf8_decode_ignore data = [] ->
    utf8_decode_ignore (firstn n data) = [].
Proof.
  induction len as [|len IH]; intros data n Hlen.
  - destruct data; [now rewrite firstn_nil | simpl in Hlen; lia].
  - destruct data as [|b1 t1]; [now rewrite firstn_nil|].
    destruct n as [|n]; [reflexivity|].
    cbn [List.length] in Hlen.
    cbn [utf8_decode_ignore firstn].
    repeat
      match goal with
      | |- _ :: _ = [] -> _ => let Hd := fresh in intros Hd; discriminate Hd
      | |- _ -> [] = [] => reflexivity
      | |- utf8_decode_ignore ?T = [] -> utf8_decode_ignore _ = [] =>
          first [ exact (IH T 0%nat ltac:(cbn [List.length] in *; lia))
                | exact (IH T 1%nat ltac:(cbn [List.length] in *; lia))
                | exact (IH T 2%nat ltac:(cbn [List.length] in *; lia))
                | exact (IH T 3%nat ltac:(cbn [List.length] in *; lia))
                | match goal with
                  | k : nat |- _ =>
                      first [ exact (IH T k ltac:(cbn [List.length] in *; lia))
                            | exact (IH T (S k) ltac:(cbn [List.length] in *; lia))
                            | exact (IH T (S (S k)) ltac:(cbn [List.length] in *; lia))
                            | exact (IH T (S (S (S k))) ltac:(cbn [List.length] in *; lia)) ]
                  end ]
      | |- context [match firstn ?k (_ :: _) with _ => _ end] =>
          destruct k; cbn [firstn]
      | |- context [match firstn _ [] with _ => _ end] => rewrite firstn_nil
      | |- context [match ?t with [] => _ | _ :: _ => _ end] =>
          is_var t; destruct t; cbn [List.length] in Hlen
      | |- context [if ?c then _ else _] => destruct c
      end.
Qed.

Lemma utf8_decode_ignore_firstn_nil (data : bytes) (n : nat) :
  utf8_decode_ignore data = [] -> utf8_decode_ignore (firstn n data) = [].
Proof.
  apply (utf8_decode_ignore_firstn_nil_aux (List.length data)). apply Nat.le_refl.
Qed.

Lemma bytes_eqb_eq (a b : bytes) : bytes_eqb a b = true <-> a = b.
Proof.
  unfold bytes_eqb. destruct (list_eq_dec byte_eq_dec a b); split; congruence.
Qed.

Section Extraction.

Variable PyPDF2 : option pdf_module.

(** What one page contributes never raises. *)
Lemma read_pages_next (p : page) (rest : pages) (text : list str) :
  exists page_text,
    read_pages (PagesNext p rest) text = read_pages rest (text ++ [page_text])
    /\ (forall e, p = Raises e -> page_text = lit "")
    /\ (p = Returns None -> page_text = lit "")
    /\ (forall s, p = Returns (Some s) -> page_text = s).
Proof.
  destruct p as [[s|]|e]; cbn [read_pages bind try_except].
  - exists (if truthy s then s else lit ""). split; [reflexivity|].
    repeat split; try discriminate.
    intros s' H. injection H as <-. now destruct s.
  - exists (lit ""). repeat split; try discriminate; reflexivity.
  - exists (lit ""). repeat split; try discriminate; reflexivity.
Qed.

Lemma read_pages_raise (ps : pages) (e : exn) :
  pages_raise ps e -> forall text, read_pages ps text = Raises e.
Proof.
  induction ps as [|p rest IH|e']; cbn [pages_raise]; intros H text.
  - destruct H.
  - destruct (read_pages_next p rest text) as (page_text & -> & _). now apply IH.
  - now subst.
Qed.

Lemma extract_text_from_pdf_returns (data : bytes) :
  exists text, extract_text_from_pdf PyPDF2 data = Returns text.
Proof.
  unfold extract_text_from_pdf. destruct PyPDF2 as [m|]; [|eexists; reflexivity].
  destruct (PdfReader m data) as [reader|e]; cbn [bind try_except];
    [|eexists; reflexivity].
  destruct (read_pages reader []) as [text|e]; cbn [bind try_except];
    eexists; reflexivity.
Qed.

Lemma primary_text_returns (data : bytes) :
  exists text, primary_text PyPDF2 data = Returns text.
Proof.
  unfold primary_text. destruct (bytes_eqb (firstn 4 data) PDF_MAGIC).
  - apply extract_text_from_pdf_returns.
  - eexists; reflexivity.
Qed.

End Extraction.

Lemma dict_set_idempotent {V} (d : dict V) (k : string) (v : V) :
  dict_set (dict_set d k v) k v = dict_set d k v.
Proof.
  induction d as [|[k' v'] d IH]; cbn [dict_set].
  - now rewrite String.eqb_refl.
  - destruct (String.eqb k' k) eqn:E; cbn [dict_set]; rewrite E; [reflexivity|].
    now rewrite IH.
Qed.

(** C6, as the code has it. For every non-empty byte sequence whose primary
    extraction yields the empty string, the text handed on is the first 500
    bytes decoded as UTF-8 with undecodable bytes dropped; it is non-empty
    when the bytes begin with the PDF magic header and empty otherwise. *)
Theorem C6_fallback_is_the_decoded_preview
  (PyPDF2 : option pdf_module) (data : bytes) :
  data <> [] ->
  primary_text PyPDF2 data = Returns (lit "") ->
  pipeline_text PyPDF2 data = Returns (utf8_decode_ignore (firstn 500 data))
  /\ (firstn 4 data = PDF_MAGIC -> utf8_decode_ignore (firstn 500 data) <> lit "")
  /\ (firstn 4 data <> PDF_MAGIC -> utf8_decode_ignore (firstn 500 data) = lit "").
Proof.
  intros _ Hprimary. split; [|split].
  - unfold pipeline_text. rewrite Hprimary. reflexivity.
  - intros Hmagic. destruct data as [|b1 t]; [discriminate Hmagic|].
    cbn [firstn] in Hmagic. injection Hmagic as -> _.
    change (firstn 500 (x25 :: t)) with (x25 :: firstn 499 t).
    change (utf8_decode_ignore (x25 :: firstn 499 t))
      with (0x25 :: utf8_decode_ignore (firstn 499 t)).
    discriminate.
  - intros Hmagic. unfold primary_text in Hprimary.
    destruct (bytes_eqb (firstn 4 data) PDF_MAGIC) eqn:E.
    + apply bytes_eqb_eq in E. contradiction.
    + cbn [try_except] in Hprimary. injection Hprimary as Hd.
      now apply utf8_decode_ignore_firstn_nil.
Qed.

(** C6 at a PDF header followed by an undecodable byte, with [PyPDF2]
    missing. *)
Lemma C6_pdf_without_decoder_example :
  pipeline_text None [x25; x50; x44; x46; x2d; xff] = Returns (lit "%PDF-").
Proof.
  destruct (C6_fallback_is_the_decoded_preview None [x25; x50; x44; x46; x2d; xff])
    as [H _].
  - discriminate.
  - reflexivity.
  - rewrite H. reflexivity.
Defined.

(** C6, as stated, fails: the single byte [0xFF] is a non-empty input, its
    primary extraction is empty, and so is the substituted preview, whatever
    PDF support is installed. *)
Lemma C6_undecodable_bytes_leave_the_text_empty :
  [xff] <> ([] : bytes)
  /\ (forall PyPDF2, primary_text PyPDF2 [xff] = Returns (lit ""))
  /\ (forall PyPDF2, pipeline_text PyPDF2 [xff] = Returns (lit "")).
Proof.
  split; [discriminate|]. split; intros PyPDF2; reflexivity.
Qed.

(** C7. For every byte sequence, with or without the PDF magic header, text
    extraction returns a string and raises nothing: a missing [PyPDF2], a
    reader that raises and a page iteration that raises give the empty
    string, and a page whose extraction raises contributes the empty
    string. *)
Theorem C7_extraction_never_raises (PyPDF2 : option pdf_module) (data : bytes) :
  (exists text, extract_text_from_pdf PyPDF2 data = Returns text)
  /\ (exists text, primary_text PyPDF2 data = Returns text)
  /\ (exists text, pipeline_text PyPDF2 data = Returns text)
  /\ (PyPDF2 = None -> extract_text_from_pdf PyPDF2 data = Returns (lit ""))
  /\ (forall m e, PyPDF2 = Some m -> PdfReader m data = Raises e ->
                  extract_text_from_pdf PyPDF2 data = Returns (lit ""))
  /\ (forall m reader e, PyPDF2 = Some m -> PdfReader m data = Returns reader ->
                         pages_raise reader e ->
                         extract_text_from_pdf PyPDF2 data = Returns (lit ""))
  /\ (forall e rest text,
        read_pages (PagesNext (Raises e) rest) text
        = read_pages rest (text ++ [lit ""])).
Proof.
  split; [apply extract_text_from_pdf_returns|].
  split; [apply primary_text_returns|].
  split.
  { unfold pipeline_text.
    destruct (primary_text_returns PyPDF2 data) as [text ->].
    eexists; reflexivity. }
  split; [intros ->; reflexivity|].
  split.
  { intros m e -> H. unfold extract_text_from_pdf. rewrite H. reflexivity. }
  split.
  { intros m reader e -> H Hraise. unfold extract_text_from_pdf. rewrite H.
    cbn [bind]. rewrite (read_pages_raise reader e Hraise). reflexivity. }
  intros e rest text. reflexivity.
Qed.

(* ================================================================== *)
(** * The stores and the three endpoints *)
(* ================================================================== *)

Lemma dict_get_set_same {V} (d : dict V) (k : string) (v : V) :
  dict_get (dict_set d k v) k = Some v.
Proof.
  induction d as [|[k' v'] d IH]; cbn [dict_set dict_get].
  - now rewrite String.eqb_refl.
  - destruct (String.eqb k' k) eqn:E; cbn [dict_get]; now rewrite E.
Qed.

Lemma dict_get_set_other {V} (d : dict V) (k k' : string) (v : V) :
  k' <> k -> dict_get (dict_set d k v) k' = dict_get d k'.
Proof.
  intros Hne. induction d as [|[k0 v0] d IH]; cbn [dict_set dict_get].
  - destruct (String.eqb k k') eqn:E; [|reflexivity].
    apply String.eqb_eq in E. congruence.
  - destruct (String.eqb k0 k) eqn:E; cbn [dict_get]; [|now rewrite IH].
    apply String.eqb_eq in E. subst k0.
    destruct (String.eqb k k') eqn:E'; [|reflexivity].
    apply String.eqb_eq in E'. congruence.
Qed.

Lemma dict_get_In_keys {V} (d : dict V) (k : string) :
  In k (keys d) <-> exists v, dict_get d k = Some v.
Proof.
  unfold keys. induction d as [|[k' v'] d IH]; cbn [map fst In dict_get].
  - split; [intros [] | intros [v H]; discriminate].
  - destruct (String.eqb k' k) eqn:E.
    + apply String.eqb_eq in E. split; [intros _; now exists v' | now left].
    + apply String.eqb_neq in E. rewrite <- IH. tauto.
Qed.

Lemma dict_set_new_key {V} (d : dict V) (k : string) (v : V) :
  ~ In k (keys d) -> dict_set d k v = d ++ [(k, v)].
Proof.
  unfold keys. induction d as [|[k' v'] d IH]; cbn [map fst In dict_set app]; intros H.
  - reflexivity.
  - destruct (String.eqb k' k) eqn:E.
    + apply String.eqb_eq in E. tauto.
    + rewrite IH by tauto. reflexivity.
Qed.

Lemma dict_set_keys_known {V} (d : dict V) (k : string) (v : V) :
  In k (keys d) -> keys (dict_set d k v) = keys d.
Proof.
  unfold keys. induction d as [|[k' v'] d IH]; cbn [map fst In dict_set]; intros H.
  - destruct H.
  - destruct (String.eqb k' k) eqn:E; [reflexivity|].
    apply String.eqb_neq in E. cbn [map fst]. rewrite IH; [reflexivity | tauto].
Qed.

Lemma str_of_nat_inj (n m : nat) : str_of_nat n = str_of_nat m -> n = m.
Proof.
  unfold str_of_nat. intros H.
  apply DecimalNat.Unsigned.to_uint_inj.
  assert (E : Some (Nat.to_uint n) = Some (Nat.to_uint m))
    by (rewrite <- !NilEmpty.usu; now rewrite H).
  now injection E.
Qed.

Lemma file_name_inj (n m : nat) : file_name n = file_name m -> n = m.
Proof.
  unfold file_name. cbn [String.append]. intros H.
  injection H as H. now apply str_of_nat_inj.
Qed.

Lemma file_name_fresh (n : nat) :
  ~ In (file_name (n + 1)) (map file_name (seq 1 n)).
Proof.
  intros H. apply in_map_iff in H as (m & Hm & Hin).
  apply file_name_inj in Hm. apply in_seq in Hin. lia.
Qed.

Section Application.

Variable unicode_lower : str -> str.
Variable PyPDF2 : option pdf_module.

Lemma upload_file_keeps_numbering (file : UploadFile) (st : Store) :
  well_numbered st -> well_numbered (snd (upload_file file st)).
Proof.
  unfold well_numbered, upload_file. intros H.
  destruct (truthy (contents file)); cbn [negb snd FILES]; [|exact H].
  pose proof (file_name_fresh (dict_len (FILES st))) as Hfresh.
  rewrite <- H in Hfresh.
  rewrite (dict_set_new_key _ _ _ Hfresh).
  unfold keys, dict_len in *. rewrite map_app, length_app, H. cbn [map fst List.length].
  rewrite Nat.add_1_r, seq_S, map_app. reflexivity.
Qed.

Lemma analyze_keeps_files (req : AnalysisRequest) (st : Store) :
  FILES (snd (analyze unicode_lower PyPDF2 req st)) = FILES st.
Proof.
  unfold analyze. destruct (dict_get (FILES st) (req_file_id req)); [|reflexivity].
  destruct (bind _ _); reflexivity.
Qed.

Lemma reachable_well_numbered (st : Store) :
  reachable unicode_lower PyPDF2 st -> well_numbered st.
Proof.
  induction 1 as [|r st Hst IH].
  - reflexivity.
  - destruct r as [file|req|id]; cbn [handle].
    + now apply upload_file_keeps_numbering.
    + unfold well_numbered. now rewrite analyze_keeps_files.
    + unfold get_analysis. now destruct (dict_get (ANALYSES st) id).
Qed.

Lemma analysis_of_returns (file_id : string) (data : bytes) :
  exists result, analysis_of unicode_lower PyPDF2 file_id data = Returns result.
Proof.
  unfold analysis_of.
  destruct (primary_text_returns PyPDF2 data) as [text0 H0].
  unfold pipeline_text. rewrite H0. cbn [bind].
  destruct (enhanced_risk_analysis_returns unicode_lower (with_fallback data text0))
    as (q & _ & ->).
  eexists. reflexivity.
Qed.

(** [analyze] in terms of the stored bytes. *)
Lemma analyze_unfold (req : AnalysisRequest) (st : Store) :
  analyze unicode_lower PyPDF2 req st
  = match dict_get (FILES st) (req_file_id req) with
    | None => (Raises (HTTPException 404 "File not found"), st)
    | Some data =>
        match analysis_of unicode_lower PyPDF2 (req_file_id req) data with
        | Returns result =>
            (Returns result,
             {| FILES := FILES st;
                ANALYSES := dict_set (ANALYSES st) (req_file_id req) result |})
        | Raises e => (Raises e, st)
        end
    end.
Proof.
  unfold analyze, analysis_of.
  destruct (dict_get (FILES st) (req_file_id req)) as [data|]; [|reflexivity].
  destruct (pipeline_text PyPDF2 data) as [text|e]; cbn [bind]; [|reflexivity].
  destruct (enhanced_risk_analysis unicode_lower text); reflexivity.
Qed.

Lemma upload_file_keeps_known_files (file : UploadFile) (st : Store) (k : string) :
  well_numbered st -> In k (keys (FILES st)) ->
  dict_get (FILES (snd (upload_file file st))) k = dict_get (FILES st) k.
Proof.
  intros Hwn Hin. unfold upload_file.
  destruct (truthy (contents file)); cbn [negb snd FILES]; [|reflexivity].
  apply dict_get_set_other. intros ->.
  apply (file_name_fresh (dict_len (FILES st))). now rewrite <- Hwn.
Qed.

Lemma handle_keeps_known_files (r : request) (st : Store) (k : string) :
  well_numbered st -> In k (keys (FILES st)) ->
  dict_get (FILES (handle unicode_lower PyPDF2 r st)) k = dict_get (FILES st) k.
Proof.
  intros Hwn Hin. destruct r as [file|req|id]; cbn [handle].
  - now apply upload_file_keeps_known_files.
  - now rewrite analyze_keeps_files.
  - unfold get_analysis. now destruct (dict_get (ANALYSES st) id).
Qed.

(** Every stored analysis belongs to a stored file and is what [analyze]
    computes from that file's bytes. *)
Lemma reachable_analyses_current (st : Store) :
  reachable unicode_lower PyPDF2 st ->
  forall id result,
    dict_get (ANALYSES st) id = Some result ->
    exists data,
      dict_get (FILES st) id = Some data
      /\ analysis_of unicode_lower PyPDF2 id data = Returns result.
Proof.
  induction 1 as [|r st Hst IH]; intros id result Hget.
  - discriminate Hget.
  - pose proof (reachable_well_numbered st Hst) as Hwn.
    destruct r as [file|req|id0]; cbn [handle] in *.
    + assert (HA : ANALYSES (snd (upload_file file st)) = ANALYSES st).
      { unfold upload_file. now destruct (truthy (contents file)). }
      rewrite HA in Hget. destruct (IH id result Hget) as (data & Hd & Ha).
      exists data. split; [|exact Ha].
      rewrite upload_file_keeps_known_files; [exact Hd | exact Hwn |].
      apply dict_get_In_keys. now exists data.
    + rewrite analyze_unfold in *.
      destruct (dict_get (FILES st) (req_file_id req)) as [data0|] eqn:Hd0;
        [|now apply IH].
      destruct (analysis_of unicode_lower PyPDF2 (req_file_id req) data0)
        as [result0|e] eqn:Ha0; [|now apply IH].
      cbn [snd FILES ANALYSES] in *.
      destruct (String.eqb id (req_file_id req)) eqn:E.
      * apply String.eqb_eq in E. subst id.
        rewrite dict_get_set_same in Hget. injection Hget as <-.
        now exists data0.
      * apply String.eqb_neq in E.
        rewrite dict_get_set_other in Hget by exact E. now apply IH.
    + unfold get_analysis in *.
      destruct (dict_get (ANALYSES st) id0); now apply IH.
Qed.

End Application.

(* ================================================================== *)
(** * Further properties: the application's stores *)
(* ================================================================== *)

(** X1. In a store the process can reach, [upload_file] rejects an empty
    upload with status 400 and changes nothing; any other upload is stored
    under the next name [file_<n+1>], which no stored file and no stored
    analysis bears, so it is appended and nothing is overwritten. *)
Theorem upload_file_assigns_a_fresh_name
  (unicode_lower : str -> str) (PyPDF2 : option pdf_module)
  (st : Store) (file : UploadFile) :
  reachable unicode_lower PyPDF2 st ->
  (contents file = [] ->
   upload_file file st = (Raises (HTTPException 400 "Empty file"), st))
  /\ (contents file <> [] ->
      upload_file file st
      = (Returns {| up_file_id := file_name (dict_len (FILES st) + 1);
                    up_filename := filename file |},
         {| FILES := FILES st
                     ++ [(file_name (dict_len (FILES st) + 1), contents file)];
            ANALYSES := ANALYSES st |})
      /\ ~ In (file_name (dict_len (FILES st) + 1)) (keys (FILES st))
      /\ dict_get (ANALYSES st) (file_name (dict_len (FILES st) + 1)) = None).
Proof.
  intros Hreach. pose proof (reachable_well_numbered _ _ st Hreach) as Hwn.
  assert (Hfresh : ~ In (file_name (dict_len (FILES st) + 1)) (keys (FILES st))).
  { rewrite Hwn. apply file_name_fresh. }
  split.
  - intros H. unfold upload_file. now rewrite H.
  - intros H. split; [|split].
    + unfold upload_file. destruct (contents file) as [|b t]; [congruence|].
      cbn [truthy negb]. now rewrite (dict_set_new_key _ _ _ Hfresh).
    + exact Hfresh.
    + destruct (dict_get (ANALYSES st) _) as [result|] eqn:Hget; [|reflexivity].
      exfalso. apply Hfresh.
      destruct (reachable_analyses_current _ _ st Hreach _ _ Hget) as (data & Hd & _).
      apply dict_get_In_keys. now exists data.
Qed.

(** X1 at the second upload of a process. *)
Lemma upload_file_second_upload_example :
  fst (upload_file {| filename := Some "b.txt"%string; contents := [x62] |}
         (handle (fun s => s) None
            (Upload {| filename := Some "a.txt"%string; contents := [x61] |})
            initial_store))
  = Returns {| up_file_id := "file_2"; up_filename := Some "b.txt"%string |}.
Proof.
  destruct (upload_file_assigns_a_fresh_name (fun s => s) None
              (handle (fun s => s) None
                 (Upload {| filename := Some "a.txt"%string; contents := [x61] |})
                 initial_store)
              {| filename := Some "b.txt"%string; contents := [x62] |})
    as [_ H].
  - apply reachable_handle, reachable_initial.
  - destruct H as [H _]; [discriminate|]. rewrite H. reflexivity.
Defined.

(** X2. Once a file is stored, no sequence of requests changes its bytes. *)
Theorem stored_files_are_immutable
  (unicode_lower : str -> str) (PyPDF2 : option pdf_module)
  (st : Store) (id : string) (data : bytes) (requests : list request) :
  reachable unicode_lower PyPDF2 st ->
  dict_get (FILES st) id = Some data ->
  dict_get (FILES (run unicode_lower PyPDF2 requests st)) id = Some data.
Proof.
  revert st. induction requests as [|r rs IH]; intros st Hreach Hget; [exact Hget|].
  cbn [run fold_left]. apply IH.
  - now apply reachable_handle.
  - rewrite handle_keeps_known_files; [exact Hget | |].
    + now apply (reachable_well_numbered unicode_lower PyPDF2).
    + apply dict_get_In_keys. now exists data.
Qed.

(** X2 at a file followed by another upload, an analysis and a retrieval. *)
Lemma stored_files_are_immutable_example :
  dict_get
    (FILES
       (run (fun s => s) None
          [ Upload {| filename := None; contents := [x62] |};
            Analyze {| req_file_id := "file_1" |};
            GetAnalysis "file_2" ]
          (handle (fun s => s) None
             (Upload {| filename := None; contents := [x61] |}) initial_store)))
    "file_1"
  = Some [x61].
Proof.
  apply (stored_files_are_immutable (fun s => s) None).
  - apply reachable_handle, reachable_initial.
  - reflexivity.
Defined.

(** X3. A stored analysis is never stale: in a store the process can reach,
    whenever [get_analysis] returns a result, the file is stored and
    [analyze] of the same identifier returns that same result. *)
Theorem get_analysis_agrees_with_analyze
  (unicode_lower : str -> str) (PyPDF2 : option pdf_module)
  (st : Store) (id : string) (result : AnalysisResult) :
  reachable unicode_lower PyPDF2 st ->
  fst (get_analysis id st) = Returns result ->
  In id (keys (FILES st))
  /\ file_id result = id
  /\ fst (analyze unicode_lower PyPDF2 {| req_file_id := id |} st) = Returns result.
Proof.
  intros Hreach Hget. unfold get_analysis in Hget.
  destruct (dict_get (ANALYSES st) id) as [r|] eqn:HA; [|discriminate].
  injection Hget as ->.
  destruct (reachable_analyses_current _ _ st Hreach _ _ HA) as (data & Hd & Ha).
  split; [apply dict_get_In_keys; now exists data|].
  split.
  - unfold analysis_of, bind in Ha.
    destruct (pipeline_text PyPDF2 data); [|discriminate].
    destruct (enhanced_risk_analysis unicode_lower a); [|discriminate].
    now injection Ha as <-.
  - rewrite analyze_unfold. cbn [req_file_id]. now rewrite Hd, Ha.
Qed.

(** X3 after an upload and an analysis. *)
Lemma get_analysis_agrees_with_analyze_example :
  fst (analyze (fun s => s) None {| req_file_id := "file_1" |}
         (run (fun s => s) None
            [ Upload {| filename := None; contents := [x66; x72; x61; x75; x64] |};
              Analyze {| req_file_id := "file_1" |} ]
            initial_store))
  = Returns {| file_id := "file_1";
               res_summary := lit "fraud.";
               res_risk_score := f64_0_2;
               res_details := {| flagged_terms := [lit "fraud"];
                                 recommendations := REVIEW_MESSAGE |} |}.
Proof.
  apply (get_analysis_agrees_with_analyze (fun s => s) None).
  - apply (reachable_handle _ _ (Analyze _)), (reachable_handle _ _ (Upload _)),
      reachable_initial.
  - vm_compute. reflexivity.
Defined.

(** X4. After [analyze] has returned a result, [get_analysis] of the same
    identifier returns that result and leaves the store alone, and what it
    returns for every other identifier is what it returned before. *)
Theorem analyze_then_get_analysis
  (unicode_lower : str -> str) (PyPDF2 : option pdf_module)
  (st : Store) (req : AnalysisRequest) (result : AnalysisResult) :
  fst (analyze unicode_lower PyPDF2 req st) = Returns result ->
  get_analysis (req_file_id req) (snd (analyze unicode_lower PyPDF2 req st))
  = (Returns result, snd (analyze unicode_lower PyPDF2 req st))
  /\ (forall id, id <> req_file_id req ->
                 fst (get_analysis id (snd (analyze unicode_lower PyPDF2 req st)))
                 = fst (get_analysis id st)).
Proof.
  rewrite analyze_unfold.
  destruct (dict_get (FILES st) (req_file_id req)) as [data|]; [|discriminate].
  destruct (analysis_of unicode_lower PyPDF2 (req_file_id req) data) as [r|e];
    [|discriminate].
  cbn [fst snd]. intros H. injection H as ->. unfold get_analysis. cbn [ANALYSES].
  split.
  - rewrite dict_get_set_same. reflexivity.
  - intros id Hne. rewrite dict_get_set_other by exact Hne.
    now destruct (dict_get (ANALYSES st) id).
Qed.

(** X4 at a one-file store. *)
Lemma analyze_then_get_analysis_example :
  fst (get_analysis "file_1"
         (snd (analyze (fun s => s) None {| req_file_id := "file_1" |}
                 {| FILES := [("file_1"%string, [x6f; x6b])]; ANALYSES := [] |})))
  = Returns {| file_id := "file_1";
               res_summary := lit "ok.";
               res_risk_score := f64_0;
               res_details := {| flagged_terms := [];
                                 recommendations := CONTINUE_MESSAGE |} |}.
Proof.
  destruct (analyze_then_get_analysis (fun s => s) None
              {| FILES := [("file_1"%string, [x6f; x6b])]; ANALYSES := [] |}
              {| req_file_id := "file_1" |}
              {| file_id := "file_1";
                 res_summary := lit "ok.";
                 res_risk_score := f64_0;
                 res_details := {| flagged_terms := [];
                                   recommendations := CONTINUE_MESSAGE |} |})
    as [H _].
  - vm_compute. reflexivity.
  - cbn [req_file_id] in H. rewrite H. reflexivity.
Defined.

Lemma analysis_of_file_id (unicode_lower : str -> str)
  (PyPDF2 : option pdf_module) (id : string) (data : bytes)
  (result : AnalysisResult) :
  analysis_of unicode_lower PyPDF2 id data = Returns result ->
  file_id result = id.
Proof.
  unfold analysis_of, bind.
  destruct (pipeline_text PyPDF2 data) as [text|e]; [|discriminate].
  destruct (enhanced_risk_analysis unicode_lower text) as [analysis|e];
    [|discriminate].
  intros H. injection H as <-. reflexivity.
Qed.

(** X5. [analyze] fails on an unknown identifier only: it returns a result
    exactly when the identifier names a stored file, whatever the bytes and
    whatever the PDF library does, and then the result carries that
    identifier and is stored under it, every other analysis staying as it
    was; otherwise it raises status 404 and stores nothing. In neither case
    does it change [FILES]. *)
Theorem analyze_fails_only_on_unknown_file
  (unicode_lower : str -> str) (PyPDF2 : option pdf_module)
  (st : Store) (req : AnalysisRequest) :
  ((exists result, fst (analyze unicode_lower PyPDF2 req st) = Returns result)
   <-> In (req_file_id req) (keys (FILES st)))
  /\ FILES (snd (analyze unicode_lower PyPDF2 req st)) = FILES st
  /\ (forall result,
        fst (analyze unicode_lower PyPDF2 req st) = Returns result ->
        file_id result = req_file_id req
        /\ dict_get (ANALYSES (snd (analyze unicode_lower PyPDF2 req st)))
                    (req_file_id req) = Some result
        /\ forall other, other <> req_file_id req ->
             dict_get (ANALYSES (snd (analyze unicode_lower PyPDF2 req st))) other
             = dict_get (ANALYSES st) other)
  /\ (~ In (req_file_id req) (keys (FILES st)) ->
      analyze unicode_lower PyPDF2 req st
      = (Raises (HTTPException 404 "File not found"), st)).
Proof.
  rewrite analyze_unfold, dict_get_In_keys.
  destruct (dict_get (FILES st) (req_file_id req)) as [data|] eqn:Hd.
  - destruct (analysis_of_returns unicode_lower PyPDF2 (req_file_id req) data)
      as [result Hres].
    pose proof (analysis_of_file_id _ _ _ _ _ Hres) as Hid.
    rewrite Hres. cbn [fst snd FILES ANALYSES].
    split; [split; [intros _; now exists data | intros _; now exists result]|].
    split; [reflexivity|].
    split.
    + intros result' H. injection H as <-.
      split; [exact Hid|]. split; [apply dict_get_set_same|].
      intros other Hne. apply dict_get_set_other.
      intros E. apply Hne. now symmetry.
    + intros H. exfalso. apply H. now exists data.
  - cbn [fst snd]. split.
    + split; [intros [result H]; discriminate | intros [v H]; discriminate].
    + split; [reflexivity|]. split; [intros result H; discriminate H | reflexivity].
Qed.

(** X18. [analyze] reads nothing of the stores but the bytes filed under
    the requested identifier: in two stores that hold the same bytes there
    it gives the same outcome, whatever else the stores hold; and the same
    request repeated in the store the first run left gives the same outcome
    and leaves that store as it is. *)
Theorem analyze_reads_only_the_requested_file
  (unicode_lower : str -> str) (PyPDF2 : option pdf_module)
  (req : AnalysisRequest) (st st' : Store) :
  dict_get (FILES st) (req_file_id req) = dict_get (FILES st') (req_file_id req) ->
  fst (analyze unicode_lower PyPDF2 req st)
  = fst (analyze unicode_lower PyPDF2 req st')
  /\ analyze unicode_lower PyPDF2 req (snd (analyze unicode_lower PyPDF2 req st))
     = analyze unicode_lower PyPDF2 req st.
Proof.
  intros Hsame. rewrite !analyze_unfold. rewrite <- Hsame.
  destruct (dict_get (FILES st) (req_file_id req)) as [data|] eqn:Hget.
  - destruct (analysis_of unicode_lower PyPDF2 (req_file_id req) data)
      as [result|e] eqn:Hrun.
    + split; [reflexivity|]. cbn [snd FILES ANALYSES]. rewrite Hget, Hrun.
      now rewrite dict_set_idempotent.
    + split; [reflexivity|]. cbn [snd]. now rewrite Hget, Hrun.
  - split; [reflexivity|]. cbn [snd]. now rewrite Hget.
Qed.

(** X18 at two stores that share the file [file_1] and nothing else. *)
Lemma analyze_reads_only_the_requested_file_example :
  fst (analyze (fun s => s) None {| req_file_id := "file_1" |}
         {| FILES := [("file_1"%string, [x66; x72; x61; x75; x64; x2e])];
            ANALYSES := [] |})
  = fst (analyze (fun s => s) None {| req_file_id := "file_1" |}
           {| FILES := [("file_0"%string, [xff]);
                        ("file_1"%string, [x66; x72; x61; x75; x64; x2e])];
              ANALYSES :=
                [("file_0"%string,
                   {| file_id := "file_0";
                      res_summary := lit "";
                      res_risk_score := f64_0;
                      res_details := {| flagged_terms := [];
                                        recommendations := CONTINUE_MESSAGE |} |})] |}).
Proof.
  apply (analyze_reads_only_the_requested_file (fun s => s) None
           {| req_file_id := "file_1" |}).
  reflexivity.
Defined.

(* ================================================================== *)
(** * Further properties: the scorer and the summarizer *)
(* ================================================================== *)

Lemma lstrip_nil_iff (s : str) : lstrip s = [] <-> blank s = true.
Proof.
  unfold blank. induction s as [|c s IH]; cbn [lstrip forallb]; [tauto|].
  destruct (isspace c); cbn [andb]; [exact IH|].
  split; discriminate.
Qed.

Lemma lstrip_keeps_nonspace (s : str) (c : codepoint) :
  isspace c = false -> In c s -> lstrip s <> [].
Proof.
  intros Hc Hin Hnil. apply lstrip_nil_iff in Hnil. unfold blank in Hnil.
  rewrite forallb_forall in Hnil. apply Hnil in Hin. congruence.
Qed.

Lemma lstrip_head (s : str) :
  match lstrip s with
  | [] => True
  | c :: _ => isspace c = false
  end.
Proof.
  induction s as [|c s IH]; cbn [lstrip]; [exact I|].
  destruct (isspace c) eqn:E; [exact IH | exact E].
Qed.

Lemma strip_nil_iff (s : str) : strip s = [] <-> blank s = true.
Proof.
  unfold strip. rewrite <- lstrip_nil_iff. split.
  - intros H. destruct (lstrip s) as [|c q] eqn:E; [reflexivity|]. exfalso.
    pose proof (lstrip_head s) as Hc. rewrite E in Hc.
    apply (f_equal (@rev codepoint)) in H. rewrite rev_involutive in H.
    cbn [rev] in H. revert H.
    apply (lstrip_keeps_nonspace _ c Hc).
    apply in_or_app. right. now left.
  - intros ->. reflexivity.
Qed.

Lemma blank_rev (s : str) : blank (rev s) = blank s.
Proof.
  unfold blank. destruct (forallb isspace s) eqn:E.
  - rewrite forallb_forall in *. intros c Hc. apply E. now apply in_rev.
  - destruct (forallb isspace (rev s)) eqn:E'; [|reflexivity].
    rewrite forallb_forall in E'. rewrite <- E. symmetry.
    apply forallb_forall. intros c Hc. apply E'. now apply in_rev in Hc.
Qed.

Lemma split_scan_blank (s : str) :
  forall in_sep after_mark piece,
    forallb blank (split_scan in_sep after_mark piece s)
    = blank piece && blank s.
Proof.
  induction s as [|c s IH]; intros in_sep after_mark piece; cbn [split_scan].
  - cbn [forallb]. rewrite blank_rev. unfold blank at 3. cbn [forallb].
    now rewrite !andb_true_r.
  - unfold blank at 3. cbn [forallb]. fold (blank s).
    destruct (isspace c) eqn:Hc; cbn [andb].
    + destruct in_sep; [apply IH|].
      destruct after_mark.
      * cbn [forallb]. rewrite IH, blank_rev. reflexivity.
      * rewrite IH. unfold blank at 1. cbn [forallb]. now rewrite Hc.
    + rewrite IH. unfold blank at 1. cbn [forallb]. rewrite Hc.
      cbn [andb]. now rewrite andb_false_r.
Qed.

Lemma split_sentences_nil_iff (text : str) :
  split_sentences text = [] <-> blank text = true.
Proof.
  unfold split_sentences, re_split_sentences.
  pose proof (split_scan_blank text false false []) as H.
  cbn [andb] in H. change (blank []) with true in H. cbn [andb] in H.
  rewrite <- H. clear H.
  induction (split_scan false false [] text) as [|p l IH]; cbn [map filter forallb].
  - tauto.
  - destruct (strip p) as [|c q] eqn:E; cbn [truthy].
    + apply strip_nil_iff in E. rewrite E. cbn [andb]. exact IH.
    + split; [discriminate|]. intros H. apply andb_true_iff in H as [H _].
      apply strip_nil_iff in H. congruence.
Qed.

Lemma filter_Subsequence {A} (keep : A -> bool) (l : list A) :
  Subsequence (filter keep l) l.
Proof.
  induction l as [|x l IH]; cbn [filter]; [constructor|].
  destruct (keep x); now constructor.
Qed.

Lemma Subsequence_nil_l {A} (l : list A) : Subsequence [] l.
Proof. induction l; now constructor. Qed.

Lemma join_nil_iff (sep : str) (parts : list str) :
  join sep parts = [] -> forall p, In p parts -> p = [].
Proof.
  induction parts as [|p rest IH]; cbn [join]; intros H q Hq; [destruct Hq|].
  destruct rest as [|p' rest'].
  - destruct Hq as [<-|[]]. exact H.
  - apply app_eq_nil in H as [Hp H]. destruct Hq as [<-|Hq]; [exact Hp|].
    apply app_eq_nil in H as [_ H]. now apply IH.
Qed.

Lemma select_sentences_cases (unicode_lower : str -> str)
  (flagged sentences : list str) :
  select_sentences unicode_lower flagged sentences
  = match filter (mentions unicode_lower flagged) sentences with
    | [] => firstn 1 sentences
    | kept => kept
    end.
Proof.
  unfold select_sentences. fold (mentions unicode_lower flagged).
  destruct (filter (mentions unicode_lower flagged) sentences); [|reflexivity].
  destruct sentences; reflexivity.
Qed.

Lemma reachable_scores_cap : forallb cap_agrees reachable_scores = true.
Proof. vm_compute. reflexivity. Qed.

Lemma reachable_scores_monotone : ratios_monotone = true.
Proof. vm_compute. reflexivity. Qed.

Lemma scored_In (n : Z) :
  In n reachable_scores -> In (n, capped_ratio n) scored.
Proof. intros H. unfold scored. apply in_map_iff. now exists n. Qed.

Lemma total_weight_matched_le (weights : lexicon) (l1 l2 : str) :
  (forall term w, In (term, w) weights -> (0 < w)%Z) ->
  (forall term, In term (terms weights) ->
                occurs_in term l1 -> occurs_in term l2) ->
  (total_weight (matched weights l1) <= total_weight (matched weights l2))%Z.
Proof.
  unfold matched. induction weights as [|[t w] weights IH]; intros Hpos Hsub;
    cbn [filter fst]; [lia|].
  assert (Hw : (0 < w)%Z) by (apply (Hpos t); now left).
  assert (IH' : (total_weight (filter (fun item => contains (fst item) l1) weights)
                 <= total_weight (filter (fun item => contains (fst item) l2) weights))%Z).
  { apply IH.
    - intros term w' H. apply (Hpos term). now right.
    - intros term H. apply Hsub. now right. }
  destruct (contains t l1) eqn:E1.
  - assert (E2 : contains t l2 = true).
    { apply contains_spec, Hsub; [now left | now apply contains_spec]. }
    rewrite E2.
    change (total_weight ((t, w) :: filter (fun item => contains (fst item) l1) weights))
      with (w + total_weight (filter (fun item => contains (fst item) l1) weights))%Z.
    change (total_weight ((t, w) :: filter (fun item => contains (fst item) l2) weights))
      with (w + total_weight (filter (fun item => contains (fst item) l2) weights))%Z.
    lia.
  - destruct (contains t l2); [|exact IH'].
    change (total_weight ((t, w) :: filter (fun item => contains (fst item) l2) weights))
      with (w + total_weight (filter (fun item => contains (fst item) l2) weights))%Z.
    lia.
Qed.

(** X6. The summary is the empty string exactly when the text holds nothing
    but white space; any text with a visible character gets a summary. *)
Theorem summary_is_empty_exactly_for_blank_text
  (unicode_lower : str -> str) (text : str) :
  exists r : Analysis,
    enhanced_risk_analysis unicode_lower text = Returns r
    /\ (summary r = lit "" <-> blank text = true).
Proof.
  destruct (enhanced_risk_analysis_returns unicode_lower text) as (q & _ & Hr).
  eexists. split; [exact Hr|]. cbn [summary].
  rewrite <- split_sentences_nil_iff. unfold summarize.
  rewrite select_sentences_cases.
  set (flagged := terms (matched RISK_WEIGHTS (lower unicode_lower text))).
  destruct (split_sentences text) as [|s0 rest] eqn:Hs.
  - cbn. tauto.
  - split; [|discriminate]. intros H. exfalso.
    destruct (filter (mentions unicode_lower flagged) (s0 :: rest)) as [|k kept];
      cbn [firstn truthy] in H; apply app_eq_nil in H as [_ H]; discriminate H.
Qed.

(** X7. The summary is made of sentences of the text in document order:
    when some sentence mentions a flagged term, exactly the mentioning
    sentences, each as often and where it stands in the text; otherwise the
    first sentence alone (none when there is no sentence). *)
Theorem summary_sentences_follow_the_document
  (unicode_lower : str -> str) (flagged sentences : list str) :
  Subsequence (select_sentences unicode_lower flagged sentences) sentences
  /\ ((exists s, In s sentences /\ mentions unicode_lower flagged s = true) ->
      select_sentences unicode_lower flagged sentences
      = filter (mentions unicode_lower flagged) sentences
      /\ forall s, In s (select_sentences unicode_lower flagged sentences)
                   <-> In s sentences /\ mentions unicode_lower flagged s = true)
  /\ ((forall s, In s sentences -> mentions unicode_lower flagged s = false) ->
      select_sentences unicode_lower flagged sentences = firstn 1 sentences).
Proof.
  rewrite select_sentences_cases.
  pose proof (filter_Subsequence (mentions unicode_lower flagged) sentences) as Hsub.
  destruct (filter (mentions unicode_lower flagged) sentences) as [|k kept] eqn:Hf.
  - split; [|split].
    + destruct sentences as [|s0 rest]; cbn [firstn];
        [constructor | apply Subsequence_keep, Subsequence_nil_l].
    + intros (s & Hin & Hm). exfalso.
      assert (H : In s (filter (mentions unicode_lower flagged) sentences))
        by (apply filter_In; now split).
      rewrite Hf in H. exact H.
    + reflexivity.
  - split; [exact Hsub|]. split.
    + intros _. split; [reflexivity|]. intros s. rewrite <- Hf. apply filter_In.
    + intros Hnone. exfalso.
      assert (H : In k (filter (mentions unicode_lower flagged) sentences))
        by (rewrite Hf; now left).
      apply filter_In in H as [Hin Hm]. rewrite (Hnone k Hin) in Hm. discriminate.
Qed.

(** X7 at three sentences of which the first and the last are the same
    sentence and mention the flagged term: both stay, the middle one goes. *)
Lemma summary_sentences_follow_the_document_example :
  select_sentences (fun s => s) [lit "fraud"]
    [lit "Fraud."; lit "Ok."; lit "Fraud."]
  = [lit "Fraud."; lit "Fraud."].
Proof.
  destruct (summary_sentences_follow_the_document (fun s => s) [lit "fraud"]
              [lit "Fraud."; lit "Ok."; lit "Fraud."]) as (_ & H & _).
  assert (Hex : exists s, In s [lit "Fraud."; lit "Ok."; lit "Fraud."]
                          /\ mentions (fun s => s) [lit "fraud"] s = true).
  { exists (lit "Fraud."). split; [now left | reflexivity]. }
  destruct (H Hex) as [Heq _]. rewrite Heq. reflexivity.
Defined.

(** X8. With the built-in lexicon the score reaches [1.0] exactly when the
    matched weights sum to 100 or more, and stays strictly below it
    otherwise. *)
Theorem risk_score_saturates_at_100 (unicode_lower : str -> str) (text : str) :
  exists r : Analysis,
    enhanced_risk_analysis unicode_lower text = Returns r
    /\ (f64_eq (risk_score r) f64_1 = true
        <-> (100 <= total_weight (matched RISK_WEIGHTS (lower unicode_lower text)))%Z)
    /\ (f64_lt (risk_score r) f64_1 = true
        <-> (total_weight (matched RISK_WEIGHTS (lower unicode_lower text)) < 100)%Z).
Proof.
  destruct (enhanced_risk_analysis_returns unicode_lower text) as (q & Hq & Hr).
  eexists. split; [exact Hr|]. cbn [risk_score].
  pose proof reachable_scores_cap as H. rewrite forallb_forall in H.
  specialize (H _ (matched_score_reachable (lower unicode_lower text))).
  unfold cap_agrees, capped_ratio in H. rewrite Hq in H.
  apply andb_true_iff in H as [H1 H2]. apply Bool.eqb_prop in H1, H2.
  rewrite H1, H2. split; [apply Z.leb_le | apply Z.ltb_lt].
Qed.

(** X9. More matches never lower the score: when every lexicon term that
    occurs in one lowercased text also occurs in another, the first text's
    [risk_score] is at most the second's. *)
Theorem risk_score_is_monotone (unicode_lower : str -> str) (text1 text2 : str) :
  (forall term, In term (terms RISK_WEIGHTS) ->
                present unicode_lower term text1 ->
                present unicode_lower term text2) ->
  exists r1 r2 : Analysis,
    enhanced_risk_analysis unicode_lower text1 = Returns r1
    /\ enhanced_risk_analysis unicode_lower text2 = Returns r2
    /\ f64_le (risk_score r1) (risk_score r2) = true.
Proof.
  intros Hsub.
  destruct (enhanced_risk_analysis_returns unicode_lower text1) as (q1 & Hq1 & Hr1).
  destruct (enhanced_risk_analysis_returns unicode_lower text2) as (q2 & Hq2 & Hr2).
  eexists; eexists. split; [exact Hr1|]. split; [exact Hr2|]. cbn [risk_score].
  pose proof (total_weight_matched_le RISK_WEIGHTS _ _ RISK_WEIGHTS_positive Hsub)
    as Hle.
  pose proof reachable_scores_monotone as H. unfold ratios_monotone in H.
  cbv zeta in H. rewrite forallb_forall in H.
  specialize (H _ (scored_In _ (matched_score_reachable (lower unicode_lower text1)))).
  rewrite forallb_forall in H.
  specialize (H _ (scored_In _ (matched_score_reachable (lower unicode_lower text2)))).
  cbn [fst snd] in H. unfold capped_ratio in H. rewrite Hq1, Hq2 in H.
  apply orb_true_iff in H as [H|H]; [|exact H].
  apply negb_true_iff, Z.leb_gt in H. lia.
Qed.

(** X9 at a text and the same text with one more term. *)
Lemma risk_score_is_monotone_example :
  exists r1 r2 : Analysis,
    enhanced_risk_analysis (fun s => s) (lit "A fraud case.") = Returns r1
    /\ enhanced_risk_analysis (fun s => s) (lit "A fraud and bribery case.")
       = Returns r2
    /\ f64_le (risk_score r1) (risk_score r2) = true.
Proof.
  apply (risk_score_is_monotone (fun s => s)).
  intros term Hin Hp. apply contains_spec in Hp. apply contains_spec.
  each_lexicon_term Hin
    ltac:(first [ vm_compute; reflexivity | vm_compute in Hp; discriminate Hp ]).
Defined.

(** ** Flagged terms and the sentences of an ASCII text *)

Ltac decide_comparisons :=
  repeat match goal with
         | |- context [N.leb ?a ?b] => destruct (N.leb_spec a b); try lia
         | |- context [N.eqb ?a ?b] => destruct (N.eqb_spec a b); try lia
         | |- context [N.ltb ?a ?b] => destruct (N.ltb_spec a b); try lia
         end.

Lemma isspace_ascii_lower (c : codepoint) : isspace (ascii_lower c) = isspace c.
Proof.
  unfold ascii_lower.
  destruct ((0x41 <=? c) && (c <=? 0x5A)) eqn:E; [|reflexivity].
  apply andb_true_iff in E as [E1 E2]. apply N.leb_le in E1, E2.
  transitivity false; [|symmetry]; unfold isspace; decide_comparisons; reflexivity.
Qed.

Lemma is_end_mark_ascii_lower (c : codepoint) :
  is_end_mark (ascii_lower c) = is_end_mark c.
Proof.
  unfold ascii_lower.
  destruct ((0x41 <=? c) && (c <=? 0x5A)) eqn:E; [|reflexivity].
  apply andb_true_iff in E as [E1 E2]. apply N.leb_le in E1, E2.
  transitivity false; [|symmetry]; unfold is_end_mark; decide_comparisons; reflexivity.
Qed.

Lemma lower_ascii_text (unicode_lower : str -> str) (s : str) :
  is_ascii s = true -> lower unicode_lower s = map ascii_lower s.
Proof. unfold lower. now intros ->. Qed.

Lemma split_scan_head (s : str) :
  forall after_mark piece,
  exists rest tail,
    split_scan false after_mark piece s = (rev piece ++ rest) :: tail.
Proof.
  induction s as [|c s IH]; intros after_mark piece; cbn [split_scan].
  - exists [], []. now rewrite app_nil_r.
  - destruct (isspace c).
    + destruct after_mark.
      * eexists [], _. now rewrite app_nil_r.
      * destruct (IH false (c :: piece)) as (rest & tail & ->).
        exists (c :: rest), tail. cbn [rev]. now rewrite <- app_assoc.
    + destruct (IH (is_end_mark c) (c :: piece)) as (rest & tail & ->).
      exists (c :: rest), tail. cbn [rev]. now rewrite <- app_assoc.
Qed.

(** While the scan reads the characters of a term, it cuts nothing. *)
Lemma split_scan_reads_term (t : str) :
  forall s after_mark piece,
    forallb (fun c => negb (is_end_mark c)) t = true ->
    startswith (map ascii_lower s) t = true ->
    (after_mark = true -> isspace (hd 0 t) = false) ->
    exists rest tail,
      split_scan false after_mark piece s
      = (rev piece ++ firstn (List.length t) s ++ rest) :: tail.
Proof.
  induction t as [|c' t IH]; intros s after_mark piece Hmarks Hstart Hfirst.
  - apply split_scan_head.
  - destruct s as [|c s]; [discriminate Hstart|].
    cbn [map startswith] in Hstart. apply andb_true_iff in Hstart as [Hc Hstart].
    apply N.eqb_eq in Hc. cbn [forallb] in Hmarks.
    apply andb_true_iff in Hmarks as [Hm Hmarks]. apply negb_true_iff in Hm.
    assert (Hmc : is_end_mark c = false)
      by (rewrite <- is_end_mark_ascii_lower, <- Hc; exact Hm).
    cbn [split_scan List.length firstn]. rewrite Hmc.
    destruct (isspace c) eqn:Hsp.
    + destruct after_mark.
      * exfalso. specialize (Hfirst eq_refl). cbn [hd] in Hfirst.
        rewrite Hc, isspace_ascii_lower in Hfirst. congruence.
      * destruct (IH s false (c :: piece) Hmarks Hstart) as (rest & tail & ->);
          [discriminate|].
        exists rest, tail. cbn [rev app]. now rewrite <- app_assoc.
    + destruct (IH s false (c :: piece) Hmarks Hstart) as (rest & tail & ->);
        [discriminate|].
      exists rest, tail. cbn [rev app]. now rewrite <- app_assoc.
Qed.

Lemma startswith_firstn (t s : str) :
  startswith s t = true -> firstn (List.length t) s = t.
Proof.
  revert s. induction t as [|c t IH]; intros s H; [reflexivity|].
  destruct s as [|d s]; [discriminate H|]. cbn [startswith] in H.
  apply andb_true_iff in H as [Hc H]. apply N.eqb_eq in Hc. subst d.
  cbn [List.length firstn]. now rewrite IH.
Qed.

Lemma startswith_map_firstn (t s : str) :
  startswith (map ascii_lower s) t = true ->
  map ascii_lower (firstn (List.length t) s) = t.
Proof.
  intros H. rewrite <- firstn_map. now apply startswith_firstn.
Qed.

(** An occurrence of an unbreakable term in the lowercased text lies in the
    lowercased form of one of the pieces the split returns. *)
Lemma split_scan_keeps_term (t : str) (s : str) :
  unbreakable t = true ->
  forall in_sep after_mark piece,
    contains t (map ascii_lower s) = true ->
    exists p, In p (split_scan in_sep after_mark piece s)
              /\ occurs_in t (map ascii_lower p).
Proof.
  intros Hu. unfold unbreakable in Hu.
  apply andb_true_iff in Hu as [Hu Hlast]. apply andb_true_iff in Hu as [Hu Hfirst].
  apply andb_true_iff in Hu as [Hne Hmarks]. apply negb_true_iff in Hfirst.
  induction s as [|c s IH]; intros in_sep after_mark piece Hc.
  - destruct t; [discriminate Hne | discriminate Hc].
  - cbn [map contains] in Hc. apply orb_true_iff in Hc as [Hstart|Htail].
    + assert (Hsp : isspace c = false).
      { destruct t as [|c' t]; [discriminate Hne|]. cbn [startswith] in Hstart.
        apply andb_true_iff in Hstart as [Hc _]. apply N.eqb_eq in Hc.
        cbn [hd] in Hfirst. now rewrite Hc, isspace_ascii_lower in Hfirst. }
      assert (Hstep : split_scan in_sep after_mark piece (c :: s)
                      = split_scan false after_mark piece (c :: s)).
      { cbn [split_scan]. now rewrite Hsp. }
      rewrite Hstep.
      change (ascii_lower c :: map ascii_lower s) with (map ascii_lower (c :: s))
        in Hstart.
      destruct (split_scan_reads_term t (c :: s) after_mark piece Hmarks Hstart)
        as (rest & tail & ->); [intros _; exact Hfirst|].
      eexists. split; [now left|].
      rewrite !map_app, (startswith_map_firstn _ _ Hstart).
      now exists (map ascii_lower (rev piece)), (map ascii_lower rest).
    + cbn [split_scan].
      destruct (isspace c).
      * destruct in_sep; [now apply IH|].
        destruct after_mark.
        -- destruct (IH true false [] Htail) as (p & Hin & Ho).
           exists p. split; [now right | exact Ho].
        -- now apply IH.
      * now apply IH.
Qed.

Lemma occurs_in_lstrip (t p : str) :
  isspace (hd 0 t) = false -> t <> [] ->
  occurs_in t (map ascii_lower p) -> occurs_in t (map ascii_lower (lstrip p)).
Proof.
  intros Hfirst Hne. induction p as [|c p IH]; cbn [lstrip]; [trivial|].
  destruct (isspace c) eqn:Hsp; [|trivial].
  intros (before & after & H). apply IH. cbn [map] in H.
  destruct before as [|b before].
  - destruct t as [|c' t]; [congruence|]. cbn [app] in H. injection H as Hc _.
    cbn [hd] in Hfirst. rewrite <- Hc, isspace_ascii_lower in Hfirst. congruence.
  - cbn [app] in H. injection H as _ H. now exists before, after.
Qed.

Lemma occurs_in_rev (t l : str) : occurs_in t l -> occurs_in (rev t) (rev l).
Proof.
  intros (before & after & ->). exists (rev after), (rev before).
  now rewrite !rev_app_distr, app_assoc.
Qed.

Lemma occurs_in_strip (t p : str) :
  unbreakable t = true ->
  occurs_in t (map ascii_lower p) -> occurs_in t (map ascii_lower (strip p)).
Proof.
  intros Hu. unfold unbreakable in Hu.
  apply andb_true_iff in Hu as [Hu Hlast]. apply andb_true_iff in Hu as [Hu Hfirst].
  apply andb_true_iff in Hu as [Hne _].
  apply negb_true_iff in Hfirst, Hlast.
  assert (Hne' : t <> []) by (destruct t; [discriminate | discriminate]).
  intros H. unfold strip.
  apply (occurs_in_lstrip _ _ Hfirst Hne') in H.
  apply occurs_in_rev in H. rewrite <- map_rev in H.
  apply (occurs_in_lstrip _ _ Hlast) in H.
  - apply occurs_in_rev in H. now rewrite rev_involutive, <- map_rev in H.
  - intros E. apply (f_equal (@rev codepoint)) in E.
    rewrite rev_involutive in E. exact (Hne' E).
Qed.

Lemma lstrip_incl (s : str) (c : codepoint) : In c (lstrip s) -> In c s.
Proof.
  induction s as [|d s IH]; cbn [lstrip]; [trivial|].
  destruct (isspace d); [intros H; right; now apply IH | trivial].
Qed.

Lemma strip_incl (s : str) (c : codepoint) : In c (strip s) -> In c s.
Proof.
  unfold strip. intros H. apply in_rev, lstrip_incl, in_rev, lstrip_incl in H.
  exact H.
Qed.

Lemma split_scan_incl (s : str) :
  forall in_sep after_mark piece p c,
    In p (split_scan in_sep after_mark piece s) -> In c p ->
    In c piece \/ In c s.
Proof.
  induction s as [|d s IH]; intros in_sep after_mark piece p c Hp Hc;
    cbn [split_scan] in Hp.
  - destruct Hp as [<-|[]]. left. now apply in_rev.
  - destruct (isspace d).
    + destruct in_sep.
      * destruct (IH _ _ _ _ _ Hp Hc); [now left | right; now right].
      * destruct after_mark.
        -- destruct Hp as [<-|Hp]; [left; now apply in_rev|].
           destruct (IH _ _ _ _ _ Hp Hc) as [[]|H]. right; now right.
        -- destruct (IH _ _ _ _ _ Hp Hc) as [[<-|H]|H];
             [right; now left | now left | right; now right].
    + destruct (IH _ _ _ _ _ Hp Hc) as [[<-|H]|H];
        [right; now left | now left | right; now right].
Qed.

Lemma split_sentences_ascii (text s : str) :
  is_ascii text = true -> In s (split_sentences text) -> is_ascii s = true.
Proof.
  unfold is_ascii, split_sentences, re_split_sentences. intros Ht Hs.
  apply filter_In in Hs as [Hs _]. apply in_map_iff in Hs as (p & <- & Hp).
  rewrite forallb_forall in *. intros c Hc. apply Ht.
  apply strip_incl in Hc.
  destruct (split_scan_incl _ _ _ _ _ _ Hp Hc) as [[]|H]. exact H.
Qed.

(** In an ASCII text, a sentence mentions each unbreakable term that occurs
    in the lowercased text. *)
Lemma some_sentence_mentions_term (unicode_lower : str -> str) (text t : str) :
  is_ascii text = true -> unbreakable t = true ->
  occurs_in t (lower unicode_lower text) ->
  exists s, In s (split_sentences text)
            /\ contains t (lower unicode_lower s) = true.
Proof.
  intros Ha Hu Ho. rewrite (lower_ascii_text _ _ Ha) in Ho.
  apply contains_spec in Ho.
  destruct (split_scan_keeps_term t text Hu false false [] Ho) as (p & Hp & Hop).
  apply (occurs_in_strip _ _ Hu) in Hop.
  assert (Hin : In (strip p) (split_sentences text)).
  { unfold split_sentences. apply filter_In. split.
    - apply in_map. exact Hp.
    - destruct (strip p); [|reflexivity]. destruct Hop as (b & a & H).
      unfold unbreakable in Hu. destruct t; [discriminate Hu|].
      destruct b; discriminate H. }
  exists (strip p). split; [exact Hin|].
  rewrite (lower_ascii_text _ _ (split_sentences_ascii _ _ Ha Hin)).
  now apply contains_spec.
Qed.

Lemma RISK_WEIGHTS_terms_unbreakable :
  forallb unbreakable (terms RISK_WEIGHTS) = true.
Proof. vm_compute. reflexivity. Qed.

Lemma occurs_in_join (sep : str) (parts : list str) (s : str) :
  In s parts -> occurs_in s (join sep parts).
Proof.
  induction parts as [|p rest IH]; intros Hin; [destruct Hin|].
  cbn [join]. destruct rest as [|p' rest'].
  - destruct Hin as [<-|[]]. exists [], []. now rewrite app_nil_r.
  - destruct Hin as [<-|Hin].
    + now exists [], (sep ++ join sep (p' :: rest')).
    + destruct (IH Hin) as (before & after & ->).
      exists (p ++ sep ++ before), after. now rewrite <- !app_assoc.
Qed.

Lemma join_incl (sep : str) (parts : list str) (c : codepoint) :
  In c (join sep parts) -> In c sep \/ exists p, In p parts /\ In c p.
Proof.
  induction parts as [|p rest IH]; cbn [join]; intros H; [destruct H|].
  destruct rest as [|p' rest'].
  - right. exists p. split; [now left | exact H].
  - apply in_app_or in H as [H|H]; [right; exists p; split; [now left | exact H]|].
    apply in_app_or in H as [H|H]; [now left|].
    destruct (IH H) as [H'|(q & Hq & Hc)]; [now left|].
    right. exists q. split; [now right | exact Hc].
Qed.

Lemma occurs_in_map (f : codepoint -> codepoint) (t l : str) :
  occurs_in t l -> occurs_in (map f t) (map f l).
Proof.
  intros (before & after & ->). exists (map f before), (map f after).
  now rewrite !map_app.
Qed.

Lemma occurs_in_trans (a b c : str) :
  occurs_in a b -> occurs_in b c -> occurs_in a c.
Proof.
  intros (b1 & a1 & ->) (b2 & a2 & ->).
  exists (b2 ++ b1), (a1 ++ a2). now rewrite <- !app_assoc.
Qed.

(** X10. In a pure-ASCII text every flagged term reaches the summary: some
    sentence of the text that mentions the term is among the summary's
    sentences, the term occurs in the lowercased summary, and as soon as a
    term is flagged every sentence of the summary mentions a flagged term
    (the first-sentence fallback is not used). *)
Theorem flagged_terms_appear_in_the_summary
  (unicode_lower : str -> str) (text : str) :
  is_ascii text = true ->
  exists r : Analysis,
    enhanced_risk_analysis unicode_lower text = Returns r
    /\ (forall term,
          In term (flagged_terms (details r)) ->
          (exists s,
              In s (select_sentences unicode_lower (flagged_terms (details r))
                      (split_sentences text))
              /\ contains term (lower unicode_lower s) = true)
          /\ present unicode_lower term (summary r))
    /\ (flagged_terms (details r) <> [] ->
        forall s,
          In s (select_sentences unicode_lower (flagged_terms (details r))
                  (split_sentences text)) ->
          mentions unicode_lower (flagged_terms (details r)) s = true).
Proof.
  intros Ha.
  destruct (enhanced_risk_analysis_returns unicode_lower text) as (q & _ & Hr).
  eexists. split; [exact Hr|]. cbn [details flagged_terms summary].
  set (flagged := terms (matched RISK_WEIGHTS (lower unicode_lower text))).
  assert (Hsel : forall term, In term flagged ->
            exists s, In s (filter (mentions unicode_lower flagged)
                              (split_sentences text))
                      /\ contains term (lower unicode_lower s) = true).
  { intros term Hin. pose proof Hin as Hin'.
    apply in_terms_matched in Hin' as [Hlex Ho].
    pose proof RISK_WEIGHTS_terms_unbreakable as Hu.
    rewrite forallb_forall in Hu.
    destruct (some_sentence_mentions_term unicode_lower text term Ha (Hu _ Hlex) Ho)
      as (s & Hs & Hc).
    exists s. split; [|exact Hc]. apply filter_In. split; [exact Hs|].
    unfold mentions. apply existsb_exists. now exists term. }
  assert (Hcases : flagged <> [] ->
            select_sentences unicode_lower flagged (split_sentences text)
            = filter (mentions unicode_lower flagged) (split_sentences text)
            /\ filter (mentions unicode_lower flagged) (split_sentences text) <> []).
  { intros Hne. rewrite select_sentences_cases.
    destruct flagged as [|t0 fl] eqn:Hfl; [congruence|].
    destruct (Hsel t0 (or_introl eq_refl)) as (s & Hs & _).
    destruct (filter _ (split_sentences text)); [destruct Hs|].
    split; [reflexivity | discriminate]. }
  split.
  - intros term Hin.
    assert (Hne : flagged <> []) by (intros E; rewrite E in Hin; exact Hin).
    destruct (Hcases Hne) as [Hselect Hnonempty].
    destruct (Hsel term Hin) as (s & Hs & Hc).
    split; [exists s; split; [now rewrite Hselect | exact Hc]|].
    unfold present, summarize. rewrite Hselect.
    set (kept := filter (mentions unicode_lower flagged) (split_sentences text)) in *.
    assert (Hks : forall p, In p kept -> is_ascii p = true).
    { intros p Hp. apply filter_In in Hp as [Hp _].
      now apply (split_sentences_ascii text). }
    assert (Hsum : is_ascii (join (lit ". ") kept
                             ++ (if truthy kept then lit "." else lit "")) = true).
    { unfold is_ascii. apply forallb_forall. intros d Hd.
      apply in_app_or in Hd as [Hd|Hd].
      - apply join_incl in Hd as [Hd|(p & Hp & Hd)].
        + cbn in Hd. destruct Hd as [<-|[<-|[]]]; reflexivity.
        + specialize (Hks p Hp). unfold is_ascii in Hks.
          rewrite forallb_forall in Hks. now apply Hks.
      - destruct (truthy kept); cbn in Hd; [|destruct Hd].
        destruct Hd as [<-|[]]. reflexivity. }
    rewrite (lower_ascii_text _ _ Hsum).
    rewrite (lower_ascii_text _ _ (Hks s Hs)) in Hc. apply contains_spec in Hc.
    eapply occurs_in_trans; [exact Hc|]. apply occurs_in_map.
    eapply occurs_in_trans; [apply (occurs_in_join (lit ". ") kept s Hs)|].
    now exists [], (if truthy kept then lit "." else lit "").
  - intros Hne s Hs. destruct (Hcases Hne) as [Hselect _].
    rewrite Hselect in Hs. now apply filter_In in Hs.
Qed.

(** X10 at a three-sentence text with two flagged terms. *)
Lemma flagged_terms_appear_in_the_summary_example :
  exists r : Analysis,
    enhanced_risk_analysis (fun s => s)
      (lit "Revenue grew. Sanctions apply! Was it Money Laundering?") = Returns r
    /\ present (fun s => s) (lit "money laundering") (summary r).
Proof.
  destruct (flagged_terms_appear_in_the_summary (fun s => s)
              (lit "Revenue grew. Sanctions apply! Was it Money Laundering?"))
    as (r & Hr & Hall & _); [reflexivity|].
  exists r. split; [exact Hr|]. apply Hall.
  assert (E : Returns r
              = enhanced_risk_analysis (fun s => s)
                  (lit "Revenue grew. Sanctions apply! Was it Money Laundering?"))
    by (symmetry; exact Hr).
  vm_compute in E. injection E as ->. cbn [details flagged_terms].
  right. now left.
Defined.

(* ================================================================== *)
(** * Further properties: decoding and PDF extraction *)
(* ================================================================== *)

Lemma land_continuation (b : byte) :
  is_continuation (to_N b) = true -> N.land (to_N b) 0x3F = to_N b - 0x80.
Proof. destruct b; vm_compute; try reflexivity; intros H; discriminate H. Qed.

Lemma land_lead2 (b : byte) :
  (to_N b <? 0xC2) = false -> (to_N b <? 0xE0) = true ->
  N.land (to_N b) 0x1F = to_N b - 0xC0.
Proof. destruct b; vm_compute; try reflexivity; intros H1 H2; discriminate. Qed.

Lemma land_lead3 (b : byte) :
  (to_N b <? 0xE0) = false -> (to_N b <? 0xF0) = true ->
  N.land (to_N b) 0x0F = to_N b - 0xE0.
Proof. destruct b; vm_compute; try reflexivity; intros H1 H2; discriminate. Qed.

Lemma land_lead4 (b : byte) :
  (to_N b <? 0xF0) = false -> (to_N b <? 0xF5) = true ->
  N.land (to_N b) 0x07 = to_N b - 0xF0.
Proof. destruct b; vm_compute; try reflexivity; intros H1 H2; discriminate. Qed.

Lemma continuation_range (n : N) :
  is_continuation n = true -> 0x80 <= n < 0xC0.
Proof.
  unfold is_continuation. intros H. apply andb_true_iff in H as [H1 H2].
  apply N.leb_le in H1. apply N.ltb_lt in H2. lia.
Qed.

Lemma scalar_of_two_bytes (b1 b2 : byte) :
  (to_N b1 <? 0xC2) = false -> (to_N b1 <? 0xE0) = true ->
  is_continuation (to_N b2) = true ->
  is_scalar (N.shiftl (N.land (to_N b1) 0x1F) 6 + N.land (to_N b2) 0x3F) = true.
Proof.
  intros H1 H2 H3.
  rewrite (land_lead2 b1 H1 H2), (land_continuation b2 H3), N.shiftl_mul_pow2.
  apply continuation_range in H3. apply N.ltb_ge in H1. apply N.ltb_lt in H2.
  change (2 ^ 6) with 64. unfold is_scalar. apply orb_true_iff. left.
  apply N.ltb_lt. lia.
Qed.

Lemma scalar_of_three_bytes (b1 b2 b3 : byte) :
  (to_N b1 <? 0xE0) = false -> (to_N b1 <? 0xF0) = true ->
  negb (is_continuation (to_N b2))
  || (if to_N b2 <? 0xA0 then to_N b1 =? 0xE0 else to_N b1 =? 0xED) = false ->
  is_continuation (to_N b3) = true ->
  is_scalar (N.shiftl (N.land (to_N b1) 0x0F) 12
             + N.shiftl (N.land (to_N b2) 0x3F) 6 + N.land (to_N b3) 0x3F) = true.
Proof.
  intros H1 H2 H H3. apply orb_false_iff in H as [Hc2 Hx].
  apply negb_false_iff in Hc2.
  rewrite (land_lead3 b1 H1 H2), (land_continuation b2 Hc2),
    (land_continuation b3 H3), !N.shiftl_mul_pow2.
  apply continuation_range in Hc2, H3. apply N.ltb_ge in H1. apply N.ltb_lt in H2.
  change (2 ^ 12) with 4096. change (2 ^ 6) with 64. unfold is_scalar.
  destruct (N.ltb_spec (to_N b2) 0xA0) as [Hlt|Hge]; apply N.eqb_neq in Hx.
  - destruct (N.lt_ge_cases (to_N b1) 0xEE) as [Hl|Hl].
    + apply orb_true_iff. left. apply N.ltb_lt. lia.
    + apply orb_true_iff. right. apply andb_true_iff.
      split; apply N.ltb_lt; lia.
  - destruct (N.lt_ge_cases (to_N b1) 0xED) as [Hl|Hl].
    + apply orb_true_iff. left. apply N.ltb_lt. lia.
    + apply orb_true_iff. right. apply andb_true_iff.
      split; apply N.ltb_lt; lia.
Qed.

Lemma scalar_of_four_bytes (b1 b2 b3 b4 : byte) :
  (to_N b1 <? 0xF0) = false -> (to_N b1 <? 0xF5) = true ->
  negb (is_continuation (to_N b2))
  || (if to_N b2 <? 0x90 then to_N b1 =? 0xF0 else to_N b1 =? 0xF4) = false ->
  negb (is_continuation (to_N b3)) = false ->
  is_continuation (to_N b4) = true ->
  is_scalar (N.shiftl (N.land (to_N b1) 0x07) 18
             + N.shiftl (N.land (to_N b2) 0x3F) 12
             + N.shiftl (N.land (to_N b3) 0x3F) 6 + N.land (to_N b4) 0x3F) = true.
Proof.
  intros H1 H2 H Hc3 H4. apply orb_false_iff in H as [Hc2 Hx].
  apply negb_false_iff in Hc2, Hc3.
  rewrite (land_lead4 b1 H1 H2), (land_continuation b2 Hc2),
    (land_continuation b3 Hc3), (land_continuation b4 H4), !N.shiftl_mul_pow2.
  apply continuation_range in Hc2, Hc3, H4.
  apply N.ltb_ge in H1. apply N.ltb_lt in H2.
  change (2 ^ 18) with 262144. change (2 ^ 12) with 4096. change (2 ^ 6) with 64.
  unfold is_scalar. apply orb_true_iff. right. apply andb_true_iff.
  destruct (N.ltb_spec (to_N b2) 0x90) as [Hlt|Hge]; apply N.eqb_neq in Hx;
    split; apply N.ltb_lt; lia.
Qed.

Lemma utf8_decode_ignore_scalar_aux (len : nat) :
  forall data : bytes,
    (List.length data <= len)%nat ->
    forallb is_scalar (utf8_decode_ignore data) = true.
Proof.
  induction len as [|len IH]; intros data Hlen.
  - destruct data; [reflexivity | cbn [List.length] in Hlen; lia].
  - destruct data as [|b1 t1]; [reflexivity|].
    cbn [List.length] in Hlen. cbn [utf8_decode_ignore].
    repeat
      match goal with
      | |- forallb is_scalar [] = true => reflexivity
      | |- forallb is_scalar (utf8_decode_ignore _) = true =>
          apply IH; cbn [List.length] in *; lia
      | |- forallb is_scalar (_ :: utf8_decode_ignore _) = true =>
          cbn [forallb]; apply andb_true_iff; split;
          [ first [ apply scalar_of_two_bytes; assumption
                  | apply scalar_of_three_bytes; assumption
                  | apply scalar_of_four_bytes; assumption
                  | match goal with
                    | H : (?n <? 0x80) = true |- is_scalar ?n = true =>
                        apply N.ltb_lt in H; unfold is_scalar;
                        apply orb_true_iff; left; apply N.ltb_lt; lia
                    end ]
          | apply IH; cbn [List.length] in *; lia ]
      | |- context [match ?t with [] => _ | _ :: _ => _ end] =>
          is_var t; destruct t; cbn [List.length] in Hlen
      | |- context [if ?c then _ else _] => destruct c eqn:?
      end.
Qed.

Lemma read_pages_of (ps : list page) :
  forall text, read_pages (pages_of ps) text = Returns (text ++ map page_text ps).
Proof.
  induction ps as [|p ps IH]; intros text; cbn [pages_of fold_right map].
  - cbn [read_pages]. now rewrite app_nil_r.
  - fold (pages_of ps).
    destruct (read_pages_next p (pages_of ps) text) as (t & -> & He & Hn & Hs).
    rewrite IH, <- app_assoc. cbn [app]. f_equal. f_equal. f_equal.
    destruct p as [[s|]|e]; cbn [page_text].
    + now apply Hs.
    + now apply Hn.
    + now apply (He e).
Qed.

(** X11. Whatever the bytes, the lossy decoder yields Unicode scalar values
    only: no surrogate and nothing above U+10FFFF. *)
Theorem utf8_decode_ignore_yields_scalar_values (data : bytes) :
  forall c, In c (utf8_decode_ignore data) -> is_scalar c = true.
Proof.
  pose proof (utf8_decode_ignore_scalar_aux (List.length data) data (Nat.le_refl _))
    as H.
  rewrite forallb_forall in H. exact H.
Qed.

(** X11 at the three bytes of the euro sign followed by a stray
    continuation byte. *)
Lemma utf8_decode_ignore_yields_scalar_values_example :
  In 0x20AC (utf8_decode_ignore [xe2; x82; xac; x80])
  /\ is_scalar 0x20AC = true.
Proof.
  assert (H : In 0x20AC (utf8_decode_ignore [xe2; x82; xac; x80]))
    by (vm_compute; now left).
  split; [exact H|].
  exact (utf8_decode_ignore_yields_scalar_values [xe2; x82; xac; x80] 0x20AC H).
Defined.

(** X12. Bytes below [0x80] decode to themselves, one character per byte. *)
Theorem utf8_decode_ignore_ascii (data : bytes) :
  forallb (fun b => to_N b <? 0x80) data = true ->
  utf8_decode_ignore data = map to_N data.
Proof.
  induction data as [|b t IH]; intros H; [reflexivity|].
  cbn [forallb] in H. apply andb_true_iff in H as [Hb Ht].
  cbn [utf8_decode_ignore map]. rewrite Hb. now rewrite IH.
Qed.

(** X12 at the bytes of "ok". *)
Lemma utf8_decode_ignore_ascii_example :
  utf8_decode_ignore [x6f; x6b] = lit "ok".
Proof.
  rewrite (utf8_decode_ignore_ascii [x6f; x6b]); reflexivity.
Defined.

(** X13. When the reader opens the document and iterating its pages does
    not raise, the extracted text is the pages' texts in order, joined by
    newlines; a page whose extraction raises or returns [None] stands as an
    empty line and costs no other page. *)
Theorem extract_text_from_pdf_joins_the_pages
  (m : pdf_module) (data : bytes) (ps : list page) :
  PdfReader m data = Returns (pages_of ps) ->
  extract_text_from_pdf (Some m) data
  = Returns (join (lit (String "010" EmptyString)) (map page_text ps)).
Proof.
  intros H. unfold extract_text_from_pdf. rewrite H. cbn [bind].
  rewrite read_pages_of. reflexivity.
Qed.

(** X13 at three pages of which the second cannot be extracted. *)
Lemma extract_text_from_pdf_joins_the_pages_example :
  extract_text_from_pdf
    (Some {| PdfReader := fun _ =>
               Returns (pages_of [ Returns (Some (lit "one"));
                                   Raises (Exception "KeyError");
                                   Returns (Some (lit "three")) ]) |})
    PDF_MAGIC
  = Returns (lit "one" ++ [0x0A; 0x0A] ++ lit "three").
Proof.
  rewrite (extract_text_from_pdf_joins_the_pages _ PDF_MAGIC
             [ Returns (Some (lit "one")); Raises (Exception "KeyError");
               Returns (Some (lit "three")) ]); reflexivity.
Defined.

(* ================================================================== *)
(** * Further properties: the frequency-based analysis *)
(* ================================================================== *)

Section FrequencyFacts.

Variable unicode_lower : str -> str.
Variable unicode_isalnum : codepoint -> bool.

Lemma findall_words_length (s : str) :
  forall current,
    List.length (findall_words unicode_isalnum current s)
    = (match current with Some _ => 1 | None => 0 end
       + word_starts (is_word unicode_isalnum)
           match current with Some _ => true | None => false end s)%nat.
Proof.
  induction s as [|c s IH]; intros current; cbn [findall_words word_starts].
  - destruct current; reflexivity.
  - destruct (is_word unicode_isalnum c) eqn:Hc.
    + rewrite IH. destruct current; cbn [negb andb]; lia.
    + destruct current; cbn [List.length negb andb]; rewrite IH; lia.
Qed.

Lemma finditer_keyword_length (kw : str) (s : str) :
  forall before pos skip,
    (List.length (finditer_keyword unicode_isalnum kw before pos skip s)
     <= keyword_hits unicode_isalnum kw before s)%nat.
Proof.
  induction s as [|c s IH]; intros before pos skip;
    cbn [finditer_keyword keyword_hits]; [cbn [List.length]; lia|].
  destruct skip as [|k].
  - destruct (keyword_here unicode_isalnum kw before (c :: s)).
    + cbn [List.length].
      specialize (IH (is_word unicode_isalnum c) (S pos) (List.length kw - 1)%nat).
      lia.
    + specialize (IH (is_word unicode_isalnum c) (S pos) 0%nat). lia.
  - specialize (IH (is_word unicode_isalnum c) (S pos) k). lia.
Qed.

Lemma plain_word_chars (kw : str) (c : codepoint) :
  plain_word kw = true -> In c kw -> is_word unicode_isalnum c = true.
Proof.
  unfold plain_word. intros H Hin. apply andb_true_iff in H as [_ H].
  rewrite forallb_forall in H. apply H in Hin.
  apply andb_true_iff in Hin as [H1 H2]. unfold is_word. now rewrite H1.
Qed.

End FrequencyFacts.

Section FrequencyBounds.

Variable unicode_lower : str -> str.
Variable unicode_isalnum : codepoint -> bool.

Lemma keyword_here_plain (kw : str) (before : bool) (s : str) :
  plain_word kw = true ->
  keyword_here unicode_isalnum kw before s = true ->
  before = false
  /\ startswith s kw = true
  /\ ends_word unicode_isalnum kw s = true.
Proof.
  intros Hp H. unfold keyword_here in H.
  apply andb_true_iff in H as [H Hend]. apply andb_true_iff in H as [Hb Hs].
  destruct kw as [|k kw]; [discriminate Hp|].
  destruct s as [|c s]; [discriminate Hs|].
  pose proof Hs as Hs'. cbn [startswith] in Hs'.
  apply andb_true_iff in Hs' as [Hk _]. apply N.eqb_eq in Hk. subst c.
  assert (Hw : is_word unicode_isalnum k = true)
    by (apply (plain_word_chars _ _ _ Hp); now left).
  unfold word_boundary in Hb. rewrite Hw in Hb.
  split; [destruct before; [discriminate Hb | reflexivity]|].
  split; [exact Hs|].
  unfold ends_word. unfold word_boundary in Hend.
  destruct (rev (k :: kw)) as [|l r] eqn:Hr.
  - apply (f_equal (@rev codepoint)) in Hr. rewrite rev_involutive in Hr.
    discriminate Hr.
  - assert (Hl : is_word unicode_isalnum l = true).
    { apply (plain_word_chars _ _ _ Hp). apply in_rev. rewrite Hr. now left. }
    rewrite Hl in Hend.
    destruct (skipn (List.length (k :: kw)) (k :: s)); [reflexivity|].
    now destruct (is_word unicode_isalnum c).
Qed.

Lemma same_keyword_at_one_place (kw1 : str) :
  forall kw2 s,
    (forall c, In c kw1 -> is_word unicode_isalnum c = true) ->
    (forall c, In c kw2 -> is_word unicode_isalnum c = true) ->
    startswith s kw1 = true -> startswith s kw2 = true ->
    ends_word unicode_isalnum kw1 s = true ->
    ends_word unicode_isalnum kw2 s = true ->
    kw1 = kw2.
Proof.
  induction kw1 as [|a kw1 IH]; intros kw2 s W1 W2 S1 S2 E1 E2.
  - destruct kw2 as [|b kw2]; [reflexivity|]. exfalso.
    destruct s as [|c s]; [discriminate S2|]. cbn [startswith] in S2.
    apply andb_true_iff in S2 as [Hb _]. apply N.eqb_eq in Hb. subst c.
    unfold ends_word in E1. cbn [List.length skipn] in E1.
    rewrite (W2 b (or_introl eq_refl)) in E1. discriminate E1.
  - destruct s as [|c s]; [discriminate S1|]. cbn [startswith] in S1.
    apply andb_true_iff in S1 as [Ha S1]. apply N.eqb_eq in Ha. subst c.
    destruct kw2 as [|b kw2].
    + exfalso. unfold ends_word in E2. cbn [List.length skipn] in E2.
      rewrite (W1 a (or_introl eq_refl)) in E2. discriminate E2.
    + cbn [startswith] in S2. apply andb_true_iff in S2 as [Hb S2].
      apply N.eqb_eq in Hb. subst b. f_equal.
      apply (IH kw2 s); try assumption.
      * intros c Hc. apply W1. now right.
      * intros c Hc. apply W2. now right.
Qed.

Lemma list_sum_map_add {A} (f g : A -> nat) (l : list A) :
  list_sum (map (fun x => f x + g x)%nat l)
  = (list_sum (map f l) + list_sum (map g l))%nat.
Proof.
  induction l as [|x l IH]; cbn [map list_sum fold_right]; [reflexivity|].
  change (fold_right Nat.add 0%nat ?m) with (list_sum m) in *.
  change (fold_right Nat.add 0%nat (map (fun x => f x + g x)%nat l))
    with (list_sum (map (fun x => f x + g x)%nat l)).
  change (fold_right Nat.add 0%nat (map f l)) with (list_sum (map f l)).
  change (fold_right Nat.add 0%nat (map g l)) with (list_sum (map g l)).
  lia.
Qed.

Lemma list_sum_map_le {A} (f g : A -> nat) (l : list A) :
  (forall x, In x l -> f x <= g x)%nat ->
  (list_sum (map f l) <= list_sum (map g l))%nat.
Proof.
  induction l as [|x l IH]; intros H; [apply Nat.le_refl|].
  change (f x + list_sum (map f l) <= g x + list_sum (map g l))%nat.
  specialize (H x (or_introl eq_refl)) as Hx.
  assert (list_sum (map f l) <= list_sum (map g l))%nat
    by (apply IH; intros y Hy; apply H; now right).
  lia.
Qed.

Lemma indicator_sum_zero {A} (P : A -> bool) (l : list A) :
  (forall x, In x l -> P x = false) ->
  list_sum (map (fun x => if P x then 1 else 0)%nat l) = 0%nat.
Proof.
  induction l as [|x l IH]; intros H; [reflexivity|].
  change ((if P x then 1 else 0)
          + list_sum (map (fun x => if P x then 1 else 0) l) = 0)%nat.
  rewrite (H x (or_introl eq_refl)), IH; [reflexivity|].
  intros y Hy. apply H. now right.
Qed.

Lemma indicator_sum_at_most_one {A} (P : A -> bool) (l : list A) :
  NoDup l ->
  (forall x y, In x l -> In y l -> P x = true -> P y = true -> x = y) ->
  (list_sum (map (fun x => if P x then 1 else 0)%nat l) <= 1)%nat.
Proof.
  induction 1 as [|x l Hx Hnd IH]; intros Huniq; [cbn; lia|].
  change ((if P x then 1 else 0)
          + list_sum (map (fun x => if P x then 1 else 0) l) <= 1)%nat.
  destruct (P x) eqn:Px.
  - rewrite indicator_sum_zero; [lia|].
    intros y Hy. destruct (P y) eqn:Py; [|reflexivity]. exfalso.
    assert (x = y) by (apply Huniq; [now left | now right | exact Px | exact Py]).
    subst y. exact (Hx Hy).
  - assert (list_sum (map (fun x => if P x then 1 else 0)%nat l) <= 1)%nat; [|lia].
    apply IH. intros a b Ha Hb. apply Huniq; now right.
Qed.

Lemma length_flat_map_sum {A B} (f : A -> list B) (l : list A) :
  List.length (flat_map f l) = list_sum (map (fun x => List.length (f x)) l).
Proof.
  induction l as [|x l IH]; [reflexivity|].
  cbn [flat_map map]. rewrite length_app, IH. reflexivity.
Qed.

(** At one place at most one plain keyword matches, and only where a word
    begins; so the keywords of a duplicate-free list match no more often
    than there are words. *)
Lemma keyword_hits_le_word_starts (kws : list str) (s : str) :
  NoDup kws -> forallb plain_word kws = true ->
  forall before,
    (list_sum (map (fun kw => keyword_hits unicode_isalnum kw before s) kws)
     <= word_starts (is_word unicode_isalnum) before s)%nat.
Proof.
  intros Hnd Hplain. rewrite forallb_forall in Hplain.
  induction s as [|c s IH]; intros before.
  - cbn [keyword_hits word_starts].
    assert (Hz : forall l : list str, list_sum (map (fun _ => 0%nat) l) = 0%nat)
      by (intros l; induction l as [|x l IHl]; [reflexivity | exact IHl]).
    rewrite Hz. apply Nat.le_refl.
  - cbn [keyword_hits word_starts]. rewrite list_sum_map_add.
    specialize (IH (is_word unicode_isalnum c)).
    assert (Hhead :
      (list_sum (map (fun kw => if keyword_here unicode_isalnum kw before (c :: s)
                                then 1 else 0) kws)
       <= (if negb before && is_word unicode_isalnum c then 1 else 0))%nat).
    { destruct (negb before && is_word unicode_isalnum c) eqn:Hstart.
      - apply indicator_sum_at_most_one; [exact Hnd|].
        intros x y Hx Hy Px Py.
        destruct (keyword_here_plain x before _ (Hplain x Hx) Px) as (_ & Sx & Ex).
        destruct (keyword_here_plain y before _ (Hplain y Hy) Py) as (_ & Sy & Ey).
        apply (same_keyword_at_one_place x y (c :: s)); try assumption.
        + intros d Hd. apply (plain_word_chars _ x d (Hplain x Hx) Hd).
        + intros d Hd. apply (plain_word_chars _ y d (Hplain y Hy) Hd).
      - rewrite indicator_sum_zero; [lia|].
        intros x Hx.
        destruct (keyword_here unicode_isalnum x before (c :: s)) eqn:Px;
          [|reflexivity]. exfalso.
        destruct (keyword_here_plain x before _ (Hplain x Hx) Px) as (Hb & Sx & _).
        subst before. cbn [negb andb] in Hstart.
        destruct x as [|k x]; [discriminate (Hplain _ Hx)|].
        cbn [startswith] in Sx. apply andb_true_iff in Sx as [Hk _].
        apply N.eqb_eq in Hk. subst c.
        rewrite (plain_word_chars _ _ k (Hplain _ Hx) (or_introl eq_refl)) in Hstart.
        discriminate Hstart. }
    lia.
Qed.

End FrequencyBounds.

Section FrequencyScore.

Local Open Scope Z_scope.

(** The quotient of two positive integers, the first not above the second,
    before rounding: a non-negative mantissa below [2^(1 - e)]. *)
Lemma div_core_of_ratio_at_most_one (a b : positive) :
  Z.pos a <= Z.pos b ->
  0 <= fst (fst (SFdiv_core_binary prec emax (Z.pos a) 0 (Z.pos b) 0))
  /\ snd (fst (SFdiv_core_binary prec emax (Z.pos a) 0 (Z.pos b) 0)) <= 0
  /\ Zdigits2 (fst (fst (SFdiv_core_binary prec emax (Z.pos a) 0 (Z.pos b) 0)))
     + snd (fst (SFdiv_core_binary prec emax (Z.pos a) 0 (Z.pos b) 0)) <= 1.
Proof.
  intros Hab. unfold SFdiv_core_binary.
  set (e' := Z.min (fexp prec emax (Zdigits2 (Z.pos a) + 0 - (Zdigits2 (Z.pos b) + 0)))
                   (0 - 0)).
  assert (He : e' <= 0) by (unfold e'; apply Z.le_min_r).
  set (m' := match 0 - 0 - e' with
             | 0 => Z.pos a
             | Z.pos _ => Z.shiftl (Z.pos a) (0 - 0 - e')
             | Z.neg _ => 0
             end).
  assert (Hm : 0 <= m' <= Z.pos b * 2 ^ (- e')).
  { unfold m'. replace (0 - 0 - e') with (- e') by lia.
    destruct (- e') as [|p|p] eqn:Hs.
    - change (2 ^ 0) with 1. lia.
    - rewrite Z.shiftl_mul_pow2 by lia.
      assert (0 < 2 ^ Z.pos p) by (apply Z.pow_pos_nonneg; lia). nia.
    - lia. }
  destruct (Z.div_eucl m' (Z.pos b)) as [q r] eqn:Hdiv. cbn [fst snd].
  assert (Hq : q = m' / Z.pos b) by (unfold Z.div; now rewrite Hdiv).
  assert (Hpow : 0 < 2 ^ (- e')) by (apply Z.pow_pos_nonneg; lia).
  assert (Hq0 : 0 <= q) by (subst q; apply Z.div_pos; lia).
  assert (Hq1 : q <= 2 ^ (- e')).
  { subst q. apply Z.div_le_upper_bound; lia. }
  split; [exact Hq0|]. split; [exact He|].
  assert (Zdigits2 q <= - e' + 1); [|lia].
  apply Zdigits2_le; [exact Hq0 | lia |].
  rewrite Z.pow_add_r by lia. change (2 ^ 1) with 2. lia.
Qed.

(** [a / b] for [0 <= a <= b] and [0 < b] returns a float that is zero or
    finite and positive. *)
Lemma int_truediv_of_ratio_at_most_one (a b : Z) :
  0 <= a <= b -> 0 < b ->
  exists x, int_truediv a b = Returns x
            /\ sign_clear x = true
            /\ forall s, x <> S754_infinity s.
Proof.
  intros [Ha Hab] Hb. destruct b as [|pb|pb]; try lia.
  destruct a as [|pa|pa]; try lia.
  - exists (S754_zero false). repeat split. discriminate.
  - unfold int_truediv.
    change (Z.pos pa <? 0) with false. change (Z.pos pb <? 0) with false.
    change (Z.to_pos (Z.abs (Z.pos pa))) with pa.
    change (Z.to_pos (Z.abs (Z.pos pb))) with pb.
    unfold SFdiv.
    destruct (div_core_of_ratio_at_most_one pa pb Hab) as (H0 & He & Hd).
    destruct (SFdiv_core_binary prec emax (Z.pos pa) 0 (Z.pos pb) 0)
      as [[q e] l]. cbn [fst snd xorb] in *.
    pose proof (binary_round_aux_sign_clear q e l H0) as Hs.
    pose proof (binary_round_aux_finite q e l H0 ltac:(lia) ltac:(lia)) as Hf.
    destruct (binary_round_aux prec emax false q e l) as [s|s| |s m e0] eqn:Hr.
    + eexists. split; [reflexivity|]. split; [exact Hs | discriminate].
    + now destruct (Hf s).
    + discriminate Hs.
    + eexists. split; [reflexivity|]. split; [exact Hs | discriminate].
Qed.

Lemma float_mul_10_sign_clear (x : float64) :
  sign_clear x = true -> (forall s, x <> S754_infinity s) ->
  sign_clear (float_mul x f64_10) = true.
Proof.
  intros Hx Hfin. destruct x as [[|]|s| |[|] m e]; try discriminate.
  - reflexivity.
  - now destruct (Hfin s).
  - unfold float_mul, f64_10, SFmul. cbn [xorb].
    apply binary_round_aux_sign_clear. lia.
Qed.

End FrequencyScore.

Lemma risk_keywords_plain : forallb plain_word risk_keywords = true.
Proof. vm_compute. reflexivity. Qed.

Lemma risk_keywords_NoDup : NoDup risk_keywords.
Proof.
  cbv. repeat constructor; intros H;
    repeat (destruct H as [H|H]; [discriminate H|]); exact H.
Qed.

Lemma risk_keywords_short :
  forallb (fun kw => (List.length kw <=? 13)%nat) risk_keywords = true.
Proof. vm_compute. reflexivity. Qed.

(** The keyword hits never outnumber the words. *)
Lemma keyword_occurrences_le_words
  (unicode_isalnum : codepoint -> bool) (s : str) :
  (List.length (keyword_occurrences unicode_isalnum s)
   <= List.length (findall_words unicode_isalnum None s))%nat.
Proof.
  unfold keyword_occurrences.
  rewrite length_flat_map_sum, findall_words_length. cbn [Nat.add].
  eapply Nat.le_trans;
    [|apply (keyword_hits_le_word_starts unicode_isalnum risk_keywords s
               risk_keywords_NoDup risk_keywords_plain false)].
  apply list_sum_map_le. intros kw _. apply finditer_keyword_length.
Qed.

Lemma lstrip_split (s : str) :
  exists spaces, s = spaces ++ lstrip s /\ blank spaces = true.
Proof.
  induction s as [|c s IH]; cbn [lstrip]; [now exists []|].
  destruct (isspace c) eqn:Hc.
  - destruct IH as (spaces & Hs & Hb). exists (c :: spaces). split.
    + cbn [app]. now rewrite <- Hs.
    + unfold blank in *. cbn [forallb]. now rewrite Hc.
  - now exists [].
Qed.

Lemma lstrip_fixed (s : str) :
  match s with
  | [] => True
  | c :: _ => isspace c = false
  end ->
  lstrip s = s.
Proof. destruct s as [|c s]; [reflexivity|]. cbn [lstrip]. now intros ->. Qed.

Lemma strip_head (s : str) :
  match strip s with
  | [] => True
  | c :: _ => isspace c = false
  end.
Proof.
  unfold strip. pose proof (lstrip_head s) as Hh.
  destruct (lstrip_split (rev (lstrip s))) as (spaces & Hs & _).
  set (u := lstrip (rev (lstrip s))) in *.
  apply (f_equal (@rev codepoint)) in Hs.
  rewrite rev_involutive, rev_app_distr in Hs.
  destruct (rev u) as [|c r]; [exact I|].
  rewrite Hs in Hh. exact Hh.
Qed.

Lemma strip_idempotent (s : str) : strip (strip s) = strip s.
Proof.
  unfold strip at 1. rewrite (lstrip_fixed (strip s) (strip_head s)).
  unfold strip. rewrite rev_involutive.
  rewrite (lstrip_fixed _ (lstrip_head (rev (lstrip s)))). reflexivity.
Qed.

Lemma lstrip_length (s : str) : (List.length (lstrip s) <= List.length s)%nat.
Proof.
  induction s as [|c s IH]; cbn [lstrip]; [apply Nat.le_refl|].
  destruct (isspace c); cbn [List.length]; lia.
Qed.

Lemma strip_length (s : str) : (List.length (strip s) <= List.length s)%nat.
Proof.
  unfold strip. rewrite length_rev.
  eapply Nat.le_trans; [apply lstrip_length|]. rewrite length_rev.
  apply lstrip_length.
Qed.

Lemma finditer_keyword_span (unicode_isalnum : codepoint -> bool) (kw s : str) :
  forall before pos skip span,
    In span (finditer_keyword unicode_isalnum kw before pos skip s) ->
    snd span = (fst span + List.length kw)%nat.
Proof.
  induction s as [|c s IH]; intros before pos skip span H;
    cbn [finditer_keyword] in H; [destruct H|].
  destruct skip as [|k]; [|eapply IH; exact H].
  destruct (keyword_here unicode_isalnum kw before (c :: s));
    [destruct H as [<-|H]; [reflexivity|]|]; eapply IH; exact H.
Qed.

(** X14. [simple_text_analysis] returns for every text, its [risk_score]
    lies in [[0.0, 1.0]], and the keyword hits it counts never outnumber
    the words it counts (so the ratio it scales is at most one). *)
Theorem simple_text_analysis_score_in_unit_interval
  (unicode_lower : str -> str) (unicode_isalnum : codepoint -> bool) (text : str) :
  exists r : SimpleAnalysis,
    simple_text_analysis unicode_lower unicode_isalnum text = Returns r
    /\ in_unit_interval (simple_risk_score r)
    /\ (List.length (keyword_occurrences unicode_isalnum (lower unicode_lower text))
        <= List.length (findall_words unicode_isalnum None (lower unicode_lower text)))%nat.
Proof.
  pose proof (keyword_occurrences_le_words unicode_isalnum
                (lower unicode_lower text)) as Hle.
  unfold simple_text_analysis.
  set (words := findall_words unicode_isalnum None (lower unicode_lower text)) in *.
  set (occurrences := keyword_occurrences unicode_isalnum (lower unicode_lower text))
    in *.
  destruct (int_truediv_of_ratio_at_most_one
              (Z.of_nat (List.length occurrences))
              (Z.of_nat (if truthy words then List.length words else 1%nat)))
    as (x & Hx & Hs & Hfin).
  - destruct words; cbn [truthy List.length] in *; lia.
  - destruct words; cbn [truthy List.length]; lia.
  - rewrite Hx. cbn [bind]. eexists. split; [reflexivity|].
    cbn [simple_risk_score]. split; [|exact Hle].
    apply min2_in_unit_interval. now apply float_mul_10_sign_clear.
Qed.

Lemma In_firstn {A} (n : nat) (l : list A) (x : A) :
  In x (firstn n l) -> In x l.
Proof.
  revert l. induction n as [|n IH]; intros l H; [destruct H|].
  destruct l as [|y l]; [destruct H|]. cbn [firstn] in H.
  destruct H as [<-|H]; [now left | right; now apply IH].
Qed.

Lemma re_split_sentences_nonempty (text : str) :
  exists first rest, re_split_sentences text = first :: rest.
Proof.
  unfold re_split_sentences.
  destruct (split_scan_head text false []) as (r & tail & ->).
  now exists (rev [] ++ r), tail.
Qed.

(** The dictionary [simple_text_analysis] returns, field by field. *)
Lemma simple_text_analysis_returns
  (unicode_lower : str -> str) (unicode_isalnum : codepoint -> bool) (text : str) :
  exists r : SimpleAnalysis,
    simple_text_analysis unicode_lower unicode_isalnum text = Returns r
    /\ simple_summary r
       = join (lit " ") (firstn 3 (re_split_sentences (strip text)))
    /\ flagged_sections (simple_details r)
       = (if truthy (flagged_section_list unicode_lower unicode_isalnum text)
          then join (lit (String "010" (String "010" EmptyString)))
                    (flagged_section_list unicode_lower unicode_isalnum text)
          else lit "None")
    /\ simple_recommendations (simple_details r)
       = (if truthy (flagged_section_list unicode_lower unicode_isalnum text)
          then SIMPLE_REVIEW_MESSAGE
          else SIMPLE_CONTINUE_MESSAGE).
Proof.
  pose proof (keyword_occurrences_le_words unicode_isalnum
                (lower unicode_lower text)) as Hle.
  unfold simple_text_analysis, flagged_section_list.
  set (words := findall_words unicode_isalnum None (lower unicode_lower text)) in *.
  set (occurrences := keyword_occurrences unicode_isalnum (lower unicode_lower text))
    in *.
  destruct (int_truediv_of_ratio_at_most_one
              (Z.of_nat (List.length occurrences))
              (Z.of_nat (if truthy words then List.length words else 1%nat)))
    as (x & Hx & _).
  - destruct words; cbn [truthy List.length] in *; lia.
  - destruct words; cbn [truthy List.length]; lia.
  - rewrite Hx. cbn [bind]. eexists. split; [reflexivity|].
    cbn [simple_summary simple_details flagged_sections simple_recommendations].
    split; [|split; reflexivity].
    destruct (re_split_sentences_nonempty (strip text)) as (f & rest & ->).
    reflexivity.
Qed.

(** X15. The flagged sections are at most ten, each at most 113 characters
    long and free of white space at both ends; the details show them, and
    the "review" recommendation, exactly when a keyword was found, and
    otherwise the text "None" and the "continue" recommendation. *)
Theorem simple_text_analysis_flagged_sections
  (unicode_lower : str -> str) (unicode_isalnum : codepoint -> bool) (text : str) :
  exists r : SimpleAnalysis,
    simple_text_analysis unicode_lower unicode_isalnum text = Returns r
    /\ (List.length (flagged_section_list unicode_lower unicode_isalnum text) <= 10)%nat
    /\ (forall section,
          In section (flagged_section_list unicode_lower unicode_isalnum text) ->
          (List.length section <= 113)%nat /\ strip section = section)
    /\ (keyword_occurrences unicode_isalnum (lower unicode_lower text) = [] ->
        flagged_sections (simple_details r) = lit "None"
        /\ simple_recommendations (simple_details r) = SIMPLE_CONTINUE_MESSAGE)
    /\ (keyword_occurrences unicode_isalnum (lower unicode_lower text) <> [] ->
        flagged_sections (simple_details r)
        = join (lit (String "010" (String "010" EmptyString)))
               (flagged_section_list unicode_lower unicode_isalnum text)
        /\ simple_recommendations (simple_details r) = SIMPLE_REVIEW_MESSAGE).
Proof.
  destruct (simple_text_analysis_returns unicode_lower unicode_isalnum text)
    as (r & Hr & _ & Hfs & Hrec).
  exists r. split; [exact Hr|].
  unfold flagged_section_list in *.
  set (occurrences := keyword_occurrences unicode_isalnum (lower unicode_lower text))
    in *.
  split; [rewrite length_map, length_firstn; lia|].
  split.
  - intros section Hin. apply in_map_iff in Hin as ([a b] & <- & Hin).
    split; [|apply strip_idempotent].
    assert (Hspan : (b <= a + 13)%nat).
    { apply In_firstn in Hin. unfold occurrences, keyword_occurrences in Hin.
      apply in_flat_map in Hin as (kw & Hkw & Hin).
      apply finditer_keyword_span in Hin. cbn [fst snd] in Hin.
      pose proof risk_keywords_short as Hshort. rewrite forallb_forall in Hshort.
      apply Hshort, Nat.leb_le in Hkw. lia. }
    unfold snippet, slice.
    eapply Nat.le_trans; [apply strip_length|].
    rewrite length_firstn. lia.
  - rewrite Hfs, Hrec. split.
    + intros ->. split; reflexivity.
    + intros Hne. destruct occurrences as [|o rest]; [congruence|].
      split; reflexivity.
Qed.

Section WholeWords.

Variable unicode_isalnum : codepoint -> bool.

Lemma prev_is_word_cons (flag : bool) (c : codepoint) (before : str) :
  prev_is_word unicode_isalnum flag (c :: before)
  = prev_is_word unicode_isalnum (is_word unicode_isalnum c) before.
Proof.
  unfold prev_is_word. cbn [rev]. now destruct (rev before).
Qed.

Lemma skipn_length_app {A} (l1 l2 : list A) :
  skipn (List.length l1) (l1 ++ l2) = l2.
Proof. induction l1 as [|x l1 IH]; [reflexivity | exact IH]. Qed.

Lemma keyword_here_iff (kw : str) (flag : bool) (s : str) :
  plain_word kw = true ->
  keyword_here unicode_isalnum kw flag s = true
  <-> flag = false
      /\ exists after, s = kw ++ after
                       /\ next_is_word unicode_isalnum after = false.
Proof.
  intros Hp. split.
  - intros H. destruct (keyword_here_plain _ kw flag s Hp H) as (Hf & Hs & He).
    split; [exact Hf|]. apply startswith_spec in Hs as [after ->].
    exists after. split; [reflexivity|].
    unfold ends_word in He. rewrite skipn_length_app in He.
    unfold next_is_word. destruct after as [|c after]; [reflexivity|].
    now apply negb_true_iff in He.
  - intros (-> & after & -> & Hn). unfold keyword_here.
    destruct kw as [|k kw]; [discriminate Hp|].
    assert (Hk : is_word unicode_isalnum k = true)
      by (apply (plain_word_chars _ _ _ Hp); now left).
    apply andb_true_iff. split; [apply andb_true_iff; split|].
    + unfold word_boundary. cbn [app]. now rewrite Hk.
    + apply startswith_spec. now exists after.
    + rewrite skipn_length_app. unfold word_boundary.
      destruct (rev (k :: kw)) as [|l r] eqn:Hr.
      * apply (f_equal (@rev codepoint)) in Hr. rewrite rev_involutive in Hr.
        discriminate Hr.
      * assert (Hl : is_word unicode_isalnum l = true).
        { apply (plain_word_chars _ _ _ Hp). apply in_rev. rewrite Hr. now left. }
        rewrite Hl. unfold next_is_word in Hn.
        destruct after as [|c after]; [reflexivity|]. now rewrite Hn.
Qed.

(** The spans the scan returns are the places where the keyword stands as a
    whole word. [skip] characters of a match are still to pass; they are
    word characters, and so is the character before them. *)
Lemma finditer_keyword_spec (kw : str) :
  plain_word kw = true ->
  forall s flag pos skip,
    (skip <> 0%nat -> flag = true) ->
    forallb (is_word unicode_isalnum) (firstn skip s) = true ->
    forall i j,
      In (i, j) (finditer_keyword unicode_isalnum kw flag pos skip s)
      <-> j = (i + List.length kw)%nat
          /\ exists before after,
               s = before ++ kw ++ after
               /\ i = (pos + List.length before)%nat
               /\ prev_is_word unicode_isalnum flag before = false
               /\ next_is_word unicode_isalnum after = false.
Proof.
  intros Hp. induction s as [|c s IH]; intros flag pos skip Hskip Hfirst i j.
  - cbn [finditer_keyword In]. split; [tauto|].
    intros (_ & before & after & H & _).
    destruct kw as [|k kw]; [discriminate Hp|].
    destruct before; discriminate H.
  - assert (Hdecomp :
      (exists before after,
          c :: s = before ++ kw ++ after
          /\ i = (pos + List.length before)%nat
          /\ prev_is_word unicode_isalnum flag before = false
          /\ next_is_word unicode_isalnum after = false)
      <-> (i = pos /\ keyword_here unicode_isalnum kw flag (c :: s) = true)
          \/ (exists before after,
                 s = before ++ kw ++ after
                 /\ i = (S pos + List.length before)%nat
                 /\ prev_is_word unicode_isalnum (is_word unicode_isalnum c) before
                    = false
                 /\ next_is_word unicode_isalnum after = false)).
    { split.
      - intros (before & after & H & Hi & Hprev & Hnext).
        destruct before as [|x before].
        + left. split; [cbn [List.length] in Hi; lia|].
          apply keyword_here_iff; [exact Hp|]. split; [exact Hprev|].
          now exists after.
        + right. cbn [app] in H. injection H as <- H.
          rewrite prev_is_word_cons in Hprev. exists before, after.
          repeat split; try assumption. cbn [List.length] in Hi. lia.
      - intros [[Hi Hk]|(before & after & H & Hi & Hprev & Hnext)].
        + apply keyword_here_iff in Hk as (Hf & after & H & Hnext); [|exact Hp].
          exists [], after. repeat split; try assumption.
          cbn [List.length]. lia.
        + exists (c :: before), after. rewrite prev_is_word_cons.
          repeat split; try assumption.
          * cbn [app]. now rewrite H.
          * cbn [List.length]. lia. }
    cbn [finditer_keyword]. destruct skip as [|k].
    + destruct (keyword_here unicode_isalnum kw flag (c :: s)) eqn:Hk.
      * assert (Hc : is_word unicode_isalnum c = true
                     /\ forallb (is_word unicode_isalnum)
                          (firstn (List.length kw - 1) s) = true).
        { destruct (keyword_here_plain _ kw flag _ Hp Hk) as (_ & Hs & _).
          destruct kw as [|x kw]; [discriminate Hp|].
          cbn [startswith] in Hs. apply andb_true_iff in Hs as [Hx Hs].
          apply N.eqb_eq in Hx. subst x. split.
          - apply (plain_word_chars _ _ _ Hp). now left.
          - cbn [List.length]. rewrite Nat.sub_1_r. cbn [Nat.pred].
            rewrite (startswith_firstn _ _ Hs). apply forallb_forall.
            intros d Hd. apply (plain_word_chars _ _ _ Hp). now right. }
        destruct Hc as [Hc Hrest].
        specialize (IH (is_word unicode_isalnum c) (S pos)
                      (List.length kw - 1)%nat (fun _ => Hc) Hrest i j).
        cbn [In]. split.
        -- intros [E|Hin].
           ++ injection E as <- <-. split; [reflexivity|].
              apply Hdecomp. left. now split.
           ++ apply IH in Hin as [Hj Hex]. split; [exact Hj|].
              apply Hdecomp. now right.
        -- intros [Hj Hex]. apply Hdecomp in Hex as [[Hi _]|Hex].
           ++ left. now subst.
           ++ right. apply IH. now split.
      * specialize (IH (is_word unicode_isalnum c) (S pos) 0%nat
                      (fun H => False_ind _ (H eq_refl)) eq_refl i j).
        split.
        -- intros Hin. apply IH in Hin as [Hj Hex]. split; [exact Hj|].
           apply Hdecomp. now right.
        -- intros [Hj Hex]. apply Hdecomp in Hex as [[_ Hk']|Hex]; [congruence|].
           apply IH. now split.
    + cbn [firstn forallb] in Hfirst. apply andb_true_iff in Hfirst as [Hc Hrest].
      specialize (IH (is_word unicode_isalnum c) (S pos) k (fun _ => Hc) Hrest i j).
      split.
      * intros Hin. apply IH in Hin as [Hj Hex]. split; [exact Hj|].
        apply Hdecomp. now right.
      * intros [Hj Hex]. apply Hdecomp in Hex as [[_ Hk]|Hex].
        -- destruct (keyword_here_plain _ kw flag _ Hp Hk) as (Hf & _).
           rewrite (Hskip ltac:(discriminate)) in Hf. discriminate Hf.
        -- apply IH. now split.
Qed.

End WholeWords.

(** X16. The frequency analysis counts whole words only: a span is among
    the occurrences exactly when one of the risk keywords stands there in
    the lowercased text with no word character right before it and none
    right after it. *)
Theorem keyword_occurrences_are_whole_words
  (unicode_isalnum : codepoint -> bool) (lower_text : str) (i j : nat) :
  In (i, j) (keyword_occurrences unicode_isalnum lower_text)
  <-> exists kw,
        In kw risk_keywords
        /\ j = (i + List.length kw)%nat
        /\ whole_word_at unicode_isalnum kw lower_text i.
Proof.
  unfold keyword_occurrences. rewrite in_flat_map.
  pose proof risk_keywords_plain as Hplain. rewrite forallb_forall in Hplain.
  assert (Hspec : forall kw, In kw risk_keywords ->
            In (i, j) (finditer_keyword unicode_isalnum kw false 0 0 lower_text)
            <-> j = (i + List.length kw)%nat
                /\ whole_word_at unicode_isalnum kw lower_text i).
  { intros kw Hkw.
    rewrite (finditer_keyword_spec unicode_isalnum kw (Hplain kw Hkw)
               lower_text false 0%nat 0%nat
               (fun Hne => False_ind _ (Hne eq_refl)) eq_refl i j).
    unfold whole_word_at. split.
    - intros (Hj & before & after & Hs & Hi & Hprev & Hnext).
      split; [exact Hj|]. exists before, after.
      repeat split; try assumption. cbn [Nat.add] in Hi. now symmetry.
    - intros (Hj & before & after & Hs & Hi & Hprev & Hnext).
      split; [exact Hj|]. exists before, after.
      repeat split; try assumption. cbn [Nat.add]. now symmetry. }
  split.
  - intros (kw & Hkw & Hin). exists kw. split; [exact Hkw|].
    now apply Hspec.
  - intros (kw & Hkw & Hrest). exists kw. split; [exact Hkw|].
    now apply Hspec.
Qed.

(** X17. The summary of [simple_text_analysis] is the first three pieces of
    the stripped text joined by single spaces; the [text[:200]] branch is
    never taken, and a blank text has the empty summary. *)
Theorem simple_text_analysis_summary
  (unicode_lower : str -> str) (unicode_isalnum : codepoint -> bool) (text : str) :
  exists r : SimpleAnalysis,
    simple_text_analysis unicode_lower unicode_isalnum text = Returns r
    /\ simple_summary r
       = join (lit " ") (firstn 3 (re_split_sentences (strip text)))
    /\ (blank text = true -> simple_summary r = lit "").
Proof.
  destruct (simple_text_analysis_returns unicode_lower unicode_isalnum text)
    as (r & Hr & Hs & _).
  exists r. split; [exact Hr|]. split; [exact Hs|].
  intros Hb. apply strip_nil_iff in Hb. rewrite Hs, Hb. reflexivity.
Qed.
